(** * SMA crossover backtest: the strategy and the engine that drives it

    [sma_cross_1.py] defines the strategy class [SmaCross] (parameters,
    indicator wiring, the per-bar callback [next]) and the driver
    [run_backtest].  Indicators, broker and event loop come from the
    backtrader framework, which is not part of the repository; they are
    modelled here from the written specification and every such definition
    says so in its comment.

    Prices, cash and equity are idealised as exact rationals ([Q]) in the
    engine, whose properties take the size the strategy computes as given.
    The sizing expression itself is studied as the program runs it, in
    binary64 ([sizer_binary64]); [sizer] is its idealisation. *)

From Stdlib Require Import ZArith QArith Qround List Bool Lia Lqa Floats.
Import ListNotations.

Open Scope Q_scope.

Set Warnings "-inexact-float".

(** ** Errors *)

Inductive Error : Type :=
| ZeroDivisionError      (* Python: float division by zero *)
| CONFIG_ERROR
| INVALID_BAR
| INSUFFICIENT_FUNDS.

Inductive Result (A : Type) : Type :=
| Ok  (a : A)
| Err (e : Error).

Arguments Ok {A} a.
Arguments Err {A} e.

Definition bind {A B : Type} (r : Result A) (k : A -> Result B) : Result B :=
  match r with
  | Ok a => k a
  | Err e => Err e
  end.

Notation "x <- r ;; k" := (bind r (fun x => k))
  (at level 61, r at next level, right associativity).

(** ** Python arithmetic on the idealised floats *)

Module Py.

(** [a / b]: raises [ZeroDivisionError] when the divisor is zero. *)
Definition truediv (a b : Q) : Result Q :=
  if Qeq_bool b 0 then Err ZeroDivisionError else Ok (a / b).

(** [int(x)]: truncation toward zero. *)
Definition int (x : Q) : Z := Z.quot (Qnum x) (Zpos (Qden x)).

(** [int(x)] on a binary64 value: truncation toward zero; [None] stands
    for the exception raised on an infinity or a NaN. *)
Definition int_binary64 (x : float) : option Z :=
  match Prim2SF x with
  | S754_zero _ => Some 0%Z
  | S754_finite s m e =>
      let mag := match e with
                 | Zneg k => Z.shiftr (Zpos m) (Zpos k)
                 | _ => Z.shiftl (Zpos m) e
                 end in
      Some (if s then (- mag)%Z else mag)
  | S754_infinity _ => None
  | S754_nan => None
  end.

End Py.

(** ** Data model *)

Inductive Side : Type := BUY | SELL.

(** The position the strategy consults ([self.position], of which the
    source reads the truth value and [size]); the fields are the data
    model's. *)
Record Position : Type := mkPosition {
  size : Z;
  entry_price : Q
}.

Definition flat_position : Position := mkPosition 0 0.

(** Truth value of a position object: it is true when shares are held. *)
Definition position_bool (pos : Position) : bool := negb (size pos =? 0)%Z.

(** The crossover indicator reports a number: [1] on an upward cross, [-1]
    on a downward cross, [0] otherwise. *)
Inductive Signal : Type := NONE | CROSS_UP | CROSS_DOWN.

Definition signal_value (s : Signal) : Z :=
  match s with
  | NONE => 0
  | CROSS_UP => 1
  | CROSS_DOWN => -1
  end.

(** ** The strategy (sma_cross_1.py, class SmaCross) *)

Module SmaCross.

Record Params : Type := mkParams {
  pfast : Z;
  pslow : Z;
  percent : Q
}.

(** [params = dict(pfast=10, pslow=30, percent=0.3)] *)
Definition params : Params := mkParams 10 30 (3 # 10).

(** [size = int((equity * self.p.percent) / price)], idealised: exact
    product and quotient, then truncation.  It is what the engine calls;
    the arithmetic of the program is [sizer_binary64] below, which can give
    a size one away from this one. *)
Definition sizer (p : Params) (equity price : Q) : Result Z :=
  q <- Py.truediv (equity * percent p) price ;;
  Ok (Py.int q).

(** [size = int((equity * self.p.percent) / price)] as the program runs it:
    the product and the quotient are binary64 operations (each rounded to
    nearest), a zero price raises ZeroDivisionError and [int] raises on an
    infinite or NaN quotient; [None] stands for any of these exceptions. *)
Definition sizer_binary64 (equity fraction price : float) : option Z :=
  if PrimFloat.eqb price 0%float then None
  else Py.int_binary64 (PrimFloat.div (PrimFloat.mul equity fraction) price).

(** [next]: the size is computed first, on every call; then the two
    guarded branches.  The result is the order handed to the broker, if
    any. *)
Definition next (p : Params) (pos : Position) (crossover : Z)
           (equity price : Q) : Result (option (Side * Z)) :=
  sz <- sizer p equity price ;;
  if negb (position_bool pos) && (0 <? crossover)%Z then
    if (0 <? sz)%Z then Ok (Some (BUY, sz)) else Ok None
  else if position_bool pos && (crossover <? 0)%Z then
    Ok (Some (SELL, size pos))
  else Ok None.

(** The two states of the strategy, read off the position it consults. *)
Inductive StrategyState : Type := FLAT | LONG.

Definition state_of (pos : Position) : StrategyState :=
  if position_bool pos then LONG else FLAT.

End SmaCross.


(** ** Moving-average indicator *)

Module SMA.

(** Modelled from the spec: the moving-average indicator ([bt.ind.SMA],
    framework code that is not in the repository).  The state holds the
    window of the last [period] closing prices and their running sum; it
    starts with an empty window and evicts the oldest price once the window
    is over its length. *)
Record State : Type := mkState {
  period : nat;
  window : list Q;
  total : Q
}.

(** Modelled from the spec: an indicator is created with an empty window. *)
Definition create (n : nat) : State := mkState n [] 0.

(** Modelled from the spec: [observe(price) -> average | UNDEFINED], the
    indicator's update, absent from the repository.  [None] is UNDEFINED. *)
Definition observe (st : State) (price : Q) : State * option Q :=
  let w := window st ++ [price] in
  let s := total st + price in
  let '(w', s') :=
    if (period st <? length w)%nat then (tl w, s - hd 0 w) else (w, s) in
  (mkState (period st) w' s',
   if (length w' =? period st)%nat
   then Some (s' / inject_Z (Z.of_nat (period st)))
   else None).

(** The indicator's outputs over a price stream, one per observation. *)
Fixpoint run (st : State) (prices : list Q) : list (option Q) :=
  match prices with
  | [] => []
  | p :: rest => snd (observe st p) :: run (fst (observe st p)) rest
  end.

End SMA.

(** ** Crossover detector *)

Module CrossOver.

(** Sign of a rational: -1, 0 or 1. *)
Definition sign (x : Q) : Z := Z.sgn (Qnum x).

(** Modelled from the spec: the crossover detector ([bt.ind.CrossOver],
    framework code that is not in the repository).  Its only state is the
    sign of (fast - slow) it stored last, if any. *)
Definition State : Type := option Z.

(** Modelled from the spec: before the first bar on which both averages are
    defined, no sign is stored. *)
Definition create : State := None.

(** Modelled from the spec: [observe(fast_value, slow_value) -> Signal], the
    detector's update, absent from the repository. *)
Definition observe (st : State) (fast slow : option Q) : State * Signal :=
  match fast, slow with
  | Some f, Some s =>
      let now := sign (f - s) in
      match st with
      | None => (Some now, NONE)
      | Some prev =>
          (Some now,
           if (prev <=? 0)%Z && (0 <? now)%Z then CROSS_UP
           else if (0 <=? prev)%Z && (now <? 0)%Z then CROSS_DOWN
           else NONE)
      end
  | _, _ => (st, NONE)
  end.

(** The detector's state after a stream of indicator values. *)
Fixpoint feed (st : State) (values : list (option Q * option Q)) : State :=
  match values with
  | [] => st
  | (f, s) :: rest => feed (fst (observe st f s)) rest
  end.

(** The detector's signals over a stream of indicator values. *)
Fixpoint run (st : State) (values : list (option Q * option Q)) : list Signal :=
  match values with
  | [] => []
  | (f, s) :: rest => snd (observe st f s) :: run (fst (observe st f s)) rest
  end.

(** The signals the two averages produce over a stream of closes. *)
Definition signals (nfast nslow : nat) (closes : list Q) : list Signal :=
  run create (combine (SMA.run (SMA.create nfast) closes)
                      (SMA.run (SMA.create nslow) closes)).

End CrossOver.

(** ** Broker and portfolio *)

(** Modelled from the spec: the data model's Order, PortfolioState and
    TradeLogEntry (the framework's own records are not in the repository). *)
Record Order : Type := mkOrder {
  side : Side;
  order_size : Z;
  order_price : Q
}.

Record PortfolioState : Type := mkPortfolio {
  cash : Q;
  position : Position;
  commission_rate : Q
}.

Record TradeLogEntry : Type := mkEntry {
  log_timestamp : Z;
  log_side : Side;
  log_size : Z;
  log_price : Q;
  resulting_cash : Q
}.

Module Broker.

(** Modelled from the spec: [value(price) -> equity], the broker's
    [getvalue], absent from the repository. *)
Definition value (pf : PortfolioState) (price : Q) : Q :=
  cash pf + inject_Z (size (position pf)) * price.

(** Modelled from the spec: [execute(order, price) -> TradeLogEntry], the
    broker's order execution, absent from the repository.  A BUY that cash
    cannot cover fails; nothing is clamped. *)
Definition execute (pf : PortfolioState) (ts : Z) (o : Order) (price : Q)
  : Result (PortfolioState * TradeLogEntry) :=
  match side o with
  | BUY =>
      let cost := inject_Z (order_size o) * price in
      let commission := cost * commission_rate pf in
      if Qle_bool (cost + commission) (cash pf) then
        let cash' := cash pf - (cost + commission) in
        Ok (mkPortfolio cash' (mkPosition (order_size o) price) (commission_rate pf),
            mkEntry ts BUY (order_size o) price cash')
      else Err INSUFFICIENT_FUNDS
  | SELL =>
      let proceeds := inject_Z (order_size o) * price in
      let commission := proceeds * commission_rate pf in
      let cash' := cash pf + (proceeds - commission) in
      Ok (mkPortfolio cash' flat_position (commission_rate pf),
          mkEntry ts SELL (order_size o) price cash')
  end.

End Broker.

(** ** Backtest engine *)

(** Modelled from the spec: the data model's Bar and EquityCurvePoint, the
    configuration the core consumes and the output it produces. *)
Record Bar : Type := mkBar {
  timestamp : Z;
  open : Q;
  high : Q;
  low : Q;
  close : Q;
  volume : Q
}.

Record EquityCurvePoint : Type := mkPoint {
  point_timestamp : Z;
  equity : Q
}.

Record Config : Type := mkConfig {
  strategy : SmaCross.Params;
  starting_cash : Q;
  commission : Q
}.

Record Report : Type := mkReport {
  starting_value : Q;
  final_value : Q;
  trades : list TradeLogEntry;
  curve : list EquityCurvePoint
}.

Module Engine.

(** Modelled from the spec: what the event loop carries from bar to bar
    (the framework's engine object is not in the repository): the two
    indicator instances, the detector, the portfolio, the last timestamp
    seen, and the two outputs it accumulates. *)
Record State : Type := mkState {
  sma_fast : SMA.State;
  sma_slow : SMA.State;
  crossover : CrossOver.State;
  broker : PortfolioState;
  last_timestamp : option Z;
  trade_log : list TradeLogEntry;
  equity_curve : list EquityCurvePoint
}.

(** [0 < x], as a boolean. *)
Definition Qpositive (x : Q) : bool := negb (Qle_bool x 0).

(** Modelled from the spec: INVALID_BAR, a bar whose timestamp does not
    increase or that carries a non-positive price. *)
Definition valid_bar (last : option Z) (b : Bar) : bool :=
  match last with
  | None => true
  | Some t => (t <? timestamp b)%Z
  end
  && Qpositive (open b) && Qpositive (high b)
  && Qpositive (low b) && Qpositive (close b).

(** Modelled from the spec: CONFIG_ERROR as far as the framework can see
    it, a non-positive period or a negative commission.  The fraction is a
    parameter of the strategy class, which never inspects its range. *)
Definition check_config (cfg : Config) : bool :=
  (0 <? SmaCross.pfast (strategy cfg))%Z
  && (0 <? SmaCross.pslow (strategy cfg))%Z
  && Qle_bool 0 (commission cfg).

(** [SmaCross.__init__] builds the two averages and the crossover; the
    broker starts with the configured cash, flat. *)
Definition init (cfg : Config) : State :=
  mkState (SMA.create (Z.to_nat (SmaCross.pfast (strategy cfg))))
          (SMA.create (Z.to_nat (SmaCross.pslow (strategy cfg))))
          CrossOver.create
          (mkPortfolio (starting_cash cfg) flat_position (commission cfg))
          None [] [].

(** Modelled from the spec: steps 1 and 2 of the loop, feed the close to
    both averages and their values to the detector. *)
Definition indicators (st : State) (b : Bar)
  : SMA.State * SMA.State * CrossOver.State * Signal :=
  let fast := SMA.observe (sma_fast st) (close b) in
  let slow := SMA.observe (sma_slow st) (close b) in
  let cross := CrossOver.observe (crossover st) (snd fast) (snd slow) in
  (fst fast, fst slow, fst cross, snd cross).

Definition bar_signal (st : State) (b : Bar) : Signal := snd (indicators st b).

(** Modelled from the spec: steps 3 and 4 of the loop, current equity from
    the broker and the call of the strategy's [next] (from the source) with
    the position, the crossover value, the equity and the close. *)
Definition decide (p : SmaCross.Params) (st : State) (b : Bar)
  : Result (option (Side * Z)) :=
  SmaCross.next p (position (broker st)) (signal_value (bar_signal st b))
                (Broker.value (broker st) (close b)) (close b).

(** Modelled from the spec: step 5 of the loop, execute the order, if any,
    at the close and append the log entry. *)
Definition fill (st : State) (b : Bar) (order : option (Side * Z))
  : Result (PortfolioState * list TradeLogEntry) :=
  match order with
  | None => Ok (broker st, trade_log st)
  | Some (sd, n) =>
      r <- Broker.execute (broker st) (timestamp b)
                          (mkOrder sd n (close b)) (close b) ;;
      Ok (fst r, trade_log st ++ [snd r])
  end.

(** Modelled from the spec: steps 6 and 7 of the loop, record post-trade
    equity and advance. *)
Definition advance (st : State) (b : Bar)
           (r : PortfolioState * list TradeLogEntry) : State :=
  let '(f, s, c, _) := indicators st b in
  mkState f s c (fst r) (Some (timestamp b)) (snd r)
          (equity_curve st
           ++ [mkPoint (timestamp b) (Broker.value (fst r) (close b))]).

(** Modelled from the spec: one iteration of the event loop (the
    framework's per-bar dispatch, absent from the repository), calling the
    strategy's [next] from the source. *)
Definition process_bar (p : SmaCross.Params) (st : State) (b : Bar)
  : Result State :=
  if valid_bar (last_timestamp st) b then
    order <- decide p st b ;;
    r <- fill st b order ;;
    Ok (advance st b r)
  else Err INVALID_BAR.

(** Modelled from the spec: the single pass over the bars, in order; the
    first error aborts it. *)
Fixpoint run_bars (p : SmaCross.Params) (st : State) (bars : list Bar)
  : Result State :=
  match bars with
  | [] => Ok st
  | b :: rest => st' <- process_bar p st b ;; run_bars p st' rest
  end.

(** Modelled from the spec: what is reported after the last bar; the final
    value is the portfolio valued at the last close. *)
Definition report (cfg : Config) (bars : list Bar) (st : State) : Report :=
  mkReport (cash (broker (init cfg)))
           (Broker.value (broker st) (last (map close bars) 0))
           (trade_log st) (equity_curve st).

(** Modelled from the spec: the whole run ([cerebro.run()], absent from the
    repository): configuration check, one pass over the bars, report. *)
Definition run (cfg : Config) (bars : list Bar) : Result Report :=
  if check_config cfg then
    st <- run_bars (strategy cfg) (init cfg) bars ;;
    Ok (report cfg bars st)
  else Err CONFIG_ERROR.

(** What the strategy saw and did on one bar. *)
Record Event : Type := mkEvent {
  ev_state : SmaCross.StrategyState;
  ev_held : Z;
  ev_signal : Signal;
  ev_size : Z;
  ev_order : option (Side * Z)
}.

Definition observe_bar (p : SmaCross.Params) (st : State) (b : Bar)
  : Result Event :=
  if valid_bar (last_timestamp st) b then
    sz <- SmaCross.sizer p (Broker.value (broker st) (close b)) (close b) ;;
    order <- decide p st b ;;
    Ok (mkEvent (SmaCross.state_of (position (broker st)))
                (size (position (broker st)))
                (bar_signal st b) sz order)
  else Err INVALID_BAR.

(** The events of a run, bar by bar, up to and including the bar on which
    it stops. *)
Fixpoint events (p : SmaCross.Params) (st : State) (bars : list Bar)
  : list Event :=
  match bars with
  | [] => []
  | b :: rest =>
      match observe_bar p st b with
      | Err _ => []
      | Ok ev =>
          ev :: match process_bar p st b with
                | Ok st' => events p st' rest
                | Err _ => []
                end
      end
  end.

(** One bar as a relation: one rule per way a bar can go. *)
Inductive bar_step (p : SmaCross.Params) (st : State) (b : Bar)
  : Result State -> Prop :=
| step_invalid :
    valid_bar (last_timestamp st) b = false ->
    bar_step p st b (Err INVALID_BAR)
| step_fault e :
    valid_bar (last_timestamp st) b = true ->
    decide p st b = Err e ->
    bar_step p st b (Err e)
| step_hold :
    valid_bar (last_timestamp st) b = true ->
    decide p st b = Ok None ->
    bar_step p st b (Ok (advance st b (broker st, trade_log st)))
| step_fill sd n pf entry :
    valid_bar (last_timestamp st) b = true ->
    decide p st b = Ok (Some (sd, n)) ->
    Broker.execute (broker st) (timestamp b) (mkOrder sd n (close b)) (close b)
    = Ok (pf, entry) ->
    bar_step p st b (Ok (advance st b (pf, trade_log st ++ [entry])))
| step_reject sd n e :
    valid_bar (last_timestamp st) b = true ->
    decide p st b = Ok (Some (sd, n)) ->
    Broker.execute (broker st) (timestamp b) (mkOrder sd n (close b)) (close b)
    = Err e ->
    bar_step p st b (Err e).

End Engine.

(** ** The driver (sma_cross_1.py, run_backtest) *)

(** [cerebro.addstrategy(SmaCross, percent=pct_to_invest)]: the class
    defaults with [percent] overridden. *)
Definition addstrategy (pct_to_invest : Q) : SmaCross.Params :=
  SmaCross.mkParams (SmaCross.pfast SmaCross.params)
                    (SmaCross.pslow SmaCross.params)
                    pct_to_invest.

(** [run_backtest], with the bars standing for the loaded data feed:
    strategy added with the given fraction, [setcash], [setcommission],
    then the run.  Nothing is checked on the way. *)
Definition run_backtest (pct_to_invest cash commission : Q) (bars : list Bar)
  : Result Report :=
  Engine.run (mkConfig (addstrategy pct_to_invest) cash commission) bars.

(** ** Reference notions used to state the properties *)

(** [2 ^ e] as a rational, for any integer exponent. *)
Definition Qpow2 (e : Z) : Q :=
  match e with
  | Z0 => 1
  | Zpos k => inject_Z (2 ^ Zpos k)
  | Zneg k => 1 # (2 ^ k)
  end.

(** The exact value of a binary64 number: sign, mantissa and exponent read
    as a rational; [None] for infinities and NaN. *)
Definition float_value (x : float) : option Q :=
  match Prim2SF x with
  | S754_zero _ => Some 0
  | S754_finite s m e =>
      Some ((if s then - inject_Z (Zpos m) else inject_Z (Zpos m)) * Qpow2 e)
  | S754_infinity _ => None
  | S754_nan => None
  end.

(** A binary64 number that is not below zero (a zero of either sign, a
    positive finite number, plus infinity; NaN is let through), and one
    that is above zero. *)
Definition nonneg_sf (x : spec_float) : Prop :=
  match x with
  | S754_finite s _ _ | S754_infinity s => s = false
  | S754_zero _ | S754_nan => True
  end.

Definition pos_sf (x : spec_float) : Prop :=
  match x with
  | S754_finite s _ _ | S754_infinity s => s = false
  | S754_zero _ | S754_nan => False
  end.

Definition Qsum (l : list Q) : Q := fold_right Qplus 0 l.

(** Arithmetic mean of a list of prices. *)
Definition mean (l : list Q) : Q := Qsum l / inject_Z (Z.of_nat (length l)).

(** The last [n] elements of a list (all of it when it is shorter). *)
Definition lastn {A : Type} (n : nat) (l : list A) : list A :=
  skipn (length l - n) l.

Definition other (s : Side) : Side :=
  match s with
  | BUY => SELL
  | SELL => BUY
  end.

(** A list of sides that starts with [first] and then alternates. *)
Fixpoint alternating (first : Side) (l : list Side) : Prop :=
  match l with
  | [] => True
  | s :: rest => s = first /\ alternating (other first) rest
  end.

(** What every state of a run satisfies: the log alternates BUY, SELL, ...
    from a BUY, the strategy is LONG exactly after an odd number of trades,
    and the position is never short. *)
Definition strategy_inv (st : Engine.State) : Prop :=
  alternating BUY (map log_side (Engine.trade_log st))
  /\ SmaCross.state_of (position (Engine.broker st))
     = (if Nat.even (length (Engine.trade_log st))
        then SmaCross.FLAT else SmaCross.LONG)
  /\ (0 <= size (position (Engine.broker st)))%Z.

(** A bar sequence the engine accepts: every bar passes [valid_bar] after
    its predecessor. *)
Fixpoint valid_bars (last : option Z) (bars : list Bar) : bool :=
  match bars with
  | [] => true
  | b :: rest => Engine.valid_bar last b && valid_bars (Some (timestamp b)) rest
  end.

(** A configuration in the documented ranges: positive periods, a fraction
    in (0, 1], a commission rate that is not negative. *)
Definition valid_config (cfg : Config) : Prop :=
  (0 < SmaCross.pfast (strategy cfg))%Z
  /\ (0 < SmaCross.pslow (strategy cfg))%Z
  /\ 0 < SmaCross.percent (strategy cfg)
  /\ SmaCross.percent (strategy cfg) <= 1
  /\ 0 <= commission cfg.

(** Bars with the given closes, stamped 1, 2, 3, ... *)
Definition bars_of (closes : list Q) : list Bar :=
  map (fun tc => mkBar (Z.of_nat (fst tc)) (snd tc) (snd tc) (snd tc) (snd tc) 0)
      (combine (seq 1 (length closes)) closes).

(** Two small runs used as worked examples: a cross up, a cross down and
    a second cross up with everything invested; and a cross up at a price
    that half the equity cannot buy, followed by cheaper bars. *)
Definition demo_config : Config := mkConfig (SmaCross.mkParams 1 2 1) 1000 0.
Definition demo_bars : list Bar := bars_of [10; 10; 20; 1; 1; 30].

Definition dear_config : Config := mkConfig (SmaCross.mkParams 1 2 (1 # 2)) 100 0.
Definition dear_bars : list Bar := bars_of [300; 300; 400; 100; 40].

(** Thirty flat bars and a jump: with the class periods 10 and 30 the last
    bar carries the first CROSS_UP. *)
Definition crossing_bars : list Bar := bars_of (repeat 10 30 ++ [20]).

(** The documented scenario: ten closes of 10, then 11, 12, ..., 40, with
    periods 2 and 5, cash 1000, everything invested, no commission. *)
Definition rising_config : Config := mkConfig (SmaCross.mkParams 2 5 1) 1000 0.
Definition rising_bars : list Bar :=
  bars_of (repeat 10 10 ++ map (fun n => inject_Z (Z.of_nat n)) (seq 11 30)).

(** What an indicator of period [N] holds after the prices [h] have been
    seen: the last [N] of them, and their sum. *)
Definition sma_inv (N : nat) (h : list Q) (st : SMA.State) : Prop :=
  SMA.period st = N /\ SMA.window st = lastn N h
  /\ SMA.total st == Qsum (SMA.window st).

(** * Properties *)

Lemma Qeq_bool_false_neq (a b : Q) : Qeq_bool a b = false -> ~ a == b.
Proof.
  intros H E. apply Qeq_eq_bool in E. congruence.
Qed.

Lemma truediv_nonzero (a b : Q) : ~ b == 0 -> Py.truediv a b = Ok (a / b).
Proof.
  intros H. unfold Py.truediv.
  destruct (Qeq_bool b 0) eqn:E; [|reflexivity].
  apply Qeq_bool_eq in E. contradiction.
Qed.

Lemma int_floor_nonneg (x : Q) : 0 <= x -> Py.int x = Qfloor x.
Proof.
  destruct x as [n d]. unfold Qle, Py.int, Qfloor. simpl. intros H.
  apply Z.quot_div_nonneg; lia.
Qed.

(** ** The sizing expression in binary64 *)

Lemma int_opp_mul (a b : Q) : Py.int (- a * b) = (- Py.int (a * b))%Z.
Proof.
  destruct a as [n d], b as [n' d']. unfold Py.int.
  cbn [Qnum Qden Qmult Qopp]. rewrite Z.mul_opp_l. apply Z.quot_opp_l. lia.
Qed.

(** Truncating mantissa * 2^exponent is a shift of the mantissa. *)
Lemma int_mantissa_shift (m : positive) (e : Z) :
  Py.int (inject_Z (Zpos m) * Qpow2 e)
  = match e with
    | Zneg k => Z.shiftr (Zpos m) (Zpos k)
    | _ => Z.shiftl (Zpos m) e
    end.
Proof.
  destruct e as [|k|k]; unfold Py.int, Qpow2.
  - simpl. rewrite Z.quot_1_r. lia.
  - cbn [Qnum Qden Qmult inject_Z]. rewrite Z.quot_1_r.
    now rewrite Z.shiftl_mul_pow2 by lia.
  - cbn [Qnum Qden Qmult inject_Z]. rewrite Z.mul_1_r.
    rewrite Z.quot_div_nonneg by lia.
    rewrite Z.shiftr_div_pow2 by lia. f_equal.
    rewrite Pos.mul_1_l. now rewrite Pos2Z.inj_pow.
Qed.

(** [int] of a double is the truncation of its exact value, and fails
    exactly on the doubles that have none. *)
Lemma int_binary64_value (x : float) :
  Py.int_binary64 x = option_map Py.int (float_value x).
Proof.
  unfold Py.int_binary64, float_value.
  destruct (Prim2SF x) as [s|s| |s m e]; try reflexivity.
  cbn [option_map]. f_equal. destruct s.
  - now rewrite int_opp_mul, int_mantissa_shift.
  - symmetry. apply int_mantissa_shift.
Qed.

Lemma leb0_nonneg (x : float) : PrimFloat.leb 0 x = true -> nonneg_sf (Prim2SF x).
Proof.
  rewrite leb_spec. change (Prim2SF 0) with (S754_zero false).
  destruct (Prim2SF x) as [s|[|]| |[|] m e]; simpl; try reflexivity;
    discriminate.
Qed.

Lemma ltb0_pos (x : float) : PrimFloat.ltb 0 x = true -> pos_sf (Prim2SF x).
Proof.
  rewrite ltb_spec. change (Prim2SF 0) with (S754_zero false).
  destruct (Prim2SF x) as [s|[|]| |[|] m e]; simpl; try reflexivity;
    discriminate.
Qed.

(** Rounding keeps the sign it is given. *)
Lemma round_aux_nonneg m e l :
  nonneg_sf (binary_round_aux prec emax false m e l).
Proof.
  unfold binary_round_aux.
  destruct (shr_fexp prec emax m e l) as [r1 e1].
  destruct (shr_fexp prec emax _ e1 loc_Exact) as [r2 e2].
  destruct (shr_m r2); try exact I.
  destruct (e2 <=? emax - prec)%Z; reflexivity.
Qed.

Lemma SFmul_nonneg x y :
  nonneg_sf x -> pos_sf y -> nonneg_sf (SFmul prec emax x y).
Proof.
  destruct x as [sx|sx| |sx mx ex], y as [sy|sy| |sy my ey]; simpl;
    intros Hx Hy; subst; try exact I; try contradiction; try reflexivity.
  apply round_aux_nonneg.
Qed.

Lemma SFdiv_nonneg x y :
  nonneg_sf x -> pos_sf y -> nonneg_sf (SFdiv prec emax x y).
Proof.
  destruct x as [sx|sx| |sx mx ex], y as [sy|sy| |sy my ey]; simpl;
    intros Hx Hy; subst; try exact I; try contradiction; try reflexivity.
  destruct (SFdiv_core_binary prec emax (Z.pos mx) ex (Z.pos my) ey)
    as [[mz ez] lz].
  apply round_aux_nonneg.
Qed.

Lemma float_value_nonneg (x : float) (v : Q) :
  nonneg_sf (Prim2SF x) -> float_value x = Some v -> 0 <= v.
Proof.
  unfold float_value.
  destruct (Prim2SF x) as [s|s| |s m e]; simpl; try discriminate.
  - intros _ [= <-]. lra.
  - intros -> [= <-]. apply Qmult_le_0_compat.
    + unfold Qle. simpl. lia.
    + destruct e; unfold Qpow2, Qle; simpl; lia.
Qed.

(** On the documented domain the rounded quotient is never below zero. *)
Lemma rounded_quotient_nonneg (equity fraction price : float) :
  PrimFloat.leb 0 equity = true ->
  PrimFloat.ltb 0 fraction = true ->
  PrimFloat.ltb 0 price = true ->
  nonneg_sf (Prim2SF (PrimFloat.div (PrimFloat.mul equity fraction) price)).
Proof.
  intros He Hf Hp. rewrite div_spec, mul_spec.
  apply SFdiv_nonneg; [apply SFmul_nonneg|]; auto using leb0_nonneg, ltb0_pos.
Qed.

(** C2, as the code has it.  Line 31 runs in binary64.  For equity >= 0,
    price > 0 and a fraction in (0, 1], whenever it returns a size, the
    rounded quotient (equity * fraction) / price has an exact value v >= 0
    and the size is floor(v).  For any inputs with a non-zero price the
    result is the truncation toward zero of that rounded quotient, and
    there is none when the quotient is infinite or NaN.  With equity
    100000, price 333.34 and fraction 0.3 the size is 89. *)
Theorem sizer_binary64_floor_of_rounded_quotient :
  (forall (equity fraction price : float) (n : Z),
      PrimFloat.leb 0 equity = true ->
      PrimFloat.ltb 0 price = true ->
      PrimFloat.ltb 0 fraction = true /\ PrimFloat.leb fraction 1 = true ->
      SmaCross.sizer_binary64 equity fraction price = Some n ->
      exists v,
        float_value (PrimFloat.div (PrimFloat.mul equity fraction) price)
        = Some v
        /\ 0 <= v /\ n = Qfloor v)
  /\ (forall equity fraction price : float,
      PrimFloat.eqb price 0 = false ->
      SmaCross.sizer_binary64 equity fraction price
      = option_map Py.int
          (float_value (PrimFloat.div (PrimFloat.mul equity fraction) price)))
  /\ (forall equity fraction price : float,
      PrimFloat.eqb price 0 = true ->
      SmaCross.sizer_binary64 equity fraction price = None)
  /\ SmaCross.sizer_binary64 100000 0.3 333.34 = Some 89%Z.
Proof.
  split; [|split; [|split]].
  - intros equity fraction price n He Hp [Hf _] Hs.
    unfold SmaCross.sizer_binary64 in Hs.
    destruct (PrimFloat.eqb price 0); [discriminate|].
    rewrite int_binary64_value in Hs.
    destruct (float_value (PrimFloat.div (PrimFloat.mul equity fraction) price))
      as [v|] eqn:Ev; [|discriminate].
    injection Hs as <-.
    assert (Hv : 0 <= v).
    { eapply float_value_nonneg; [|exact Ev].
      now apply rounded_quotient_nonneg. }
    exists v. repeat split; [exact Hv|]. now apply int_floor_nonneg.
  - intros equity fraction price Hp. unfold SmaCross.sizer_binary64.
    rewrite Hp. apply int_binary64_value.
  - intros equity fraction price Hp. unfold SmaCross.sizer_binary64.
    now rewrite Hp.
  - vm_compute. reflexivity.
Qed.

Lemma sizer_binary64_floor_of_rounded_quotient_witness :
  exists v,
    float_value (PrimFloat.div (PrimFloat.mul 1002 0.3) 10.02) = Some v
    /\ 0 <= v /\ 29%Z = Qfloor v.
Proof.
  apply (proj1 sizer_binary64_floor_of_rounded_quotient
               1002%float 0.3%float 10.02%float 29%Z);
    try split; vm_compute; reflexivity.
Defined.

(** C2, as the claim states it, fails on the doubles: for equity 1002,
    fraction 0.3 and price 10.02, all in the claim's domain, the exact
    quotient has floor 30, whether taken on the decimal numbers or on the
    exact values of the three doubles, and the code returns 29. *)
Lemma sizer_binary64_below_exact_floor :
  (PrimFloat.leb 0 1002 = true /\ PrimFloat.ltb 0 10.02 = true
   /\ PrimFloat.ltb 0 0.3 = true /\ PrimFloat.leb 0.3 1 = true)
  /\ SmaCross.sizer_binary64 1002 0.3 10.02 = Some 29%Z
  /\ Qfloor (1002 * (3 # 10) / (1002 # 100)) = 30%Z
  /\ (exists e f p,
         float_value 1002 = Some e /\ float_value 0.3 = Some f
         /\ float_value 10.02 = Some p /\ Qfloor (e * f / p) = 30%Z).
Proof.
  split; [repeat split; vm_compute; reflexivity|].
  split; [vm_compute; reflexivity|].
  split; [vm_compute; reflexivity|].
  destruct (float_value 1002) as [e|] eqn:Ee; [|vm_compute in Ee; discriminate].
  destruct (float_value 0.3) as [f|] eqn:Ef; [|vm_compute in Ef; discriminate].
  destruct (float_value 10.02) as [p|] eqn:Ep; [|vm_compute in Ep; discriminate].
  exists e, f, p. repeat split.
  vm_compute in Ee, Ef, Ep.
  injection Ee as <-. injection Ef as <-. injection Ep as <-.
  vm_compute. reflexivity.
Qed.

(** ** The moving average *)

Lemma Qsum_app (l1 l2 : list Q) : Qsum (l1 ++ l2) == Qsum l1 + Qsum l2.
Proof.
  induction l1 as [|x l1 IH]; simpl.
  - ring.
  - rewrite IH. ring.
Qed.

Lemma Qsum_tl (l : list Q) : Qsum (tl l) == Qsum l - hd 0 l.
Proof.
  destruct l as [|x l]; simpl; ring.
Qed.

Lemma lastn_length {A : Type} (n : nat) (l : list A) :
  length (lastn n l) = Nat.min n (length l).
Proof.
  unfold lastn. rewrite length_skipn. lia.
Qed.

Lemma lastn_all {A : Type} (n : nat) (l : list A) :
  (length l <= n)%nat -> lastn n l = l.
Proof.
  intros H. unfold lastn. replace (length l - n)%nat with 0%nat by lia.
  reflexivity.
Qed.

Lemma skipn_S_tl {A : Type} (m : nat) (l : list A) :
  skipn (S m) l = tl (skipn m l).
Proof.
  revert l. induction m as [|m IH]; intros [|x l]; simpl; try reflexivity.
  apply IH.
Qed.

Lemma lastn_snoc_full {A : Type} (n : nat) (l : list A) (x : A) :
  (0 < n <= length l)%nat -> lastn n (l ++ [x]) = tl (lastn n l ++ [x]).
Proof.
  intros H. unfold lastn. rewrite length_app. simpl.
  replace (length l + 1 - n)%nat with (S (length l - n)) by lia.
  rewrite skipn_S_tl, skipn_app.
  replace (length l - n - length l)%nat with 0%nat by lia.
  reflexivity.
Qed.

Section SMA_facts.

Variable N : nat.
Hypothesis N_pos : (0 < N)%nat.

Lemma sma_create_inv : sma_inv N [] (SMA.create N).
Proof.
  repeat split; simpl; reflexivity.
Qed.

(** One observation: the window becomes the last [N] prices seen, the
    running sum stays their sum, and the output is their mean exactly when
    [N] prices have been seen. *)
Lemma sma_observe_inv (h : list Q) (st : SMA.State) (p : Q) :
  sma_inv N h st ->
  sma_inv N (h ++ [p]) (fst (SMA.observe st p))
  /\ (if (length (h ++ [p]) <? N)%nat
      then snd (SMA.observe st p) = None
      else exists m, snd (SMA.observe st p) = Some m
                     /\ m == mean (lastn N (h ++ [p]))).
Proof.
  intros (Hp & Hw & Ht).
  assert (Hstep :
    exists w' s', SMA.observe st p
                  = (SMA.mkState N w' s',
                     if (length w' =? N)%nat
                     then Some (s' / inject_Z (Z.of_nat N)) else None)
                  /\ w' = lastn N (h ++ [p]) /\ s' == Qsum w').
  { unfold SMA.observe. rewrite Hp, Hw.
    destruct (N <? length (lastn N h ++ [p]))%nat eqn:E.
    - apply Nat.ltb_lt in E. rewrite length_app, lastn_length in E. simpl in E.
      eexists _, _. split; [reflexivity|]. split.
      + symmetry. apply lastn_snoc_full. lia.
      + rewrite Qsum_tl, Qsum_app, Ht, Hw. simpl. ring.
    - apply Nat.ltb_ge in E. rewrite length_app, lastn_length in E. simpl in E.
      eexists _, _. split; [reflexivity|]. split.
      + rewrite (lastn_all N h) by lia.
        symmetry. apply lastn_all. rewrite length_app. simpl. lia.
      + rewrite Qsum_app, Ht, Hw. simpl. ring. }
  destruct Hstep as (w' & s' & Hobs & Hw' & Hs').
  rewrite Hobs. simpl. split.
  - repeat split; simpl; [exact Hw' | exact Hs'].
  - assert (Hlen : length w' = Nat.min N (length (h ++ [p])))
      by (rewrite Hw'; apply lastn_length).
    destruct (length (h ++ [p]) <? N)%nat eqn:E.
    + apply Nat.ltb_lt in E.
      destruct (Nat.eqb_spec (length w') N); [lia | reflexivity].
    + apply Nat.ltb_ge in E.
      destruct (Nat.eqb_spec (length w') N) as [Hn|]; [|lia].
      eexists. split; [reflexivity|].
      unfold mean. rewrite <- Hw', Hn, Hs'. reflexivity.
Qed.

(** The outputs of a run that starts after the prices [h]. *)
Lemma sma_run_spec (prices h : list Q) (st : SMA.State) (k : nat) :
  sma_inv N h st -> (k < length prices)%nat ->
  if (length h + S k <? N)%nat
  then nth_error (SMA.run st prices) k = Some None
  else exists m, nth_error (SMA.run st prices) k = Some (Some m)
                 /\ m == mean (lastn N (h ++ firstn (S k) prices)).
Proof.
  revert h st k. induction prices as [|p rest IH]; intros h st k Hinv Hk.
  - simpl in Hk. lia.
  - destruct (sma_observe_inv h st p Hinv) as [Hinv' Hout].
    destruct k as [|k].
    + simpl. rewrite length_app in Hout. simpl in Hout.
      replace (length h + 1)%nat with (length h + 1)%nat in * by lia.
      destruct (length h + 1 <? N)%nat.
      * rewrite Hout. reflexivity.
      * destruct Hout as (m & -> & Hm). exists m. split; [reflexivity | exact Hm].
    + simpl in Hk. specialize (IH (h ++ [p]) _ k Hinv' ltac:(lia)).
      rewrite length_app in IH. simpl in IH.
      replace (length h + 1 + S k)%nat with (length h + S (S k))%nat in IH by lia.
      change (nth_error (SMA.run st (p :: rest)) (S k))
        with (nth_error (SMA.run (fst (SMA.observe st p)) rest) k).
      destruct (length h + S (S k) <? N)%nat; [exact IH|].
      destruct IH as (m & Hm1 & Hm2). exists m. split; [exact Hm1|].
      rewrite Hm2. rewrite <- app_assoc. reflexivity.
Qed.

Lemma sma_run_length (st : SMA.State) (prices : list Q) :
  length (SMA.run st prices) = length prices.
Proof.
  revert st. induction prices as [|p rest IH]; intros st; simpl; [reflexivity|].
  now rewrite IH.
Qed.

End SMA_facts.

(** C3. With a positive period N the indicator gives one output per
    observed price: UNDEFINED on each of the first N-1 observations and,
    from the N-th on, the arithmetic mean of the last N observed prices. *)
Theorem sma_warmup_then_mean (N : nat) (prices : list Q) (k : nat) :
  (0 < N)%nat -> (k < length prices)%nat ->
  length (SMA.run (SMA.create N) prices) = length prices
  /\ (if (S k <? N)%nat
      then nth_error (SMA.run (SMA.create N) prices) k = Some None
      else exists m,
          nth_error (SMA.run (SMA.create N) prices) k = Some (Some m)
          /\ m == mean (lastn N (firstn (S k) prices))
          /\ length (lastn N (firstn (S k) prices)) = N).
Proof.
  intros HN Hk. split; [apply sma_run_length|].
  pose proof (sma_run_spec N HN prices [] (SMA.create N) k
                           (sma_create_inv N) Hk) as H.
  cbn [app length Nat.add] in H.
  destruct (S k <? N)%nat eqn:E; [exact H|].
  destruct H as (m & H1 & H2). exists m. repeat split; try assumption.
  apply Nat.ltb_ge in E. rewrite lastn_length, length_firstn. lia.
Qed.

Lemma sma_warmup_then_mean_witness :
  length (SMA.run (SMA.create 3) [1; 2; 3; 7]) = 4%nat
  /\ exists m, nth_error (SMA.run (SMA.create 3) [1; 2; 3; 7]) 3 = Some (Some m)
               /\ m == mean (lastn 3 (firstn 4 [1; 2; 3; 7]))
               /\ length (lastn 3 (firstn 4 [1; 2; 3; 7])) = 3%nat.
Proof.
  apply (sma_warmup_then_mean 3 [1; 2; 3; 7] 3); simpl; lia.
Defined.

(** ** The crossover detector *)

Lemma sign_pos (x : Q) : (0 < CrossOver.sign x)%Z <-> 0 < x.
Proof.
  destruct x as [n d]. unfold CrossOver.sign, Qlt. simpl. lia.
Qed.

Lemma sign_neg (x : Q) : (CrossOver.sign x < 0)%Z <-> x < 0.
Proof.
  destruct x as [n d]. unfold CrossOver.sign, Qlt. simpl. lia.
Qed.

Lemma sign_nonpos (x : Q) : (CrossOver.sign x <= 0)%Z <-> x <= 0.
Proof.
  destruct x as [n d]. unfold CrossOver.sign, Qle. simpl. lia.
Qed.

Lemma sign_nonneg (x : Q) : (0 <= CrossOver.sign x)%Z <-> 0 <= x.
Proof.
  destruct x as [n d]. unfold CrossOver.sign, Qle. simpl. lia.
Qed.

(** A signal other than NONE needs both inputs and a stored sign on the
    right side of zero. *)
Lemma observe_cross_up (st : CrossOver.State) (fv sv : option Q) :
  snd (CrossOver.observe st fv sv) = CROSS_UP ->
  exists prev f s, st = Some prev /\ fv = Some f /\ sv = Some s
                   /\ (prev <= 0)%Z /\ 0 < f - s.
Proof.
  unfold CrossOver.observe.
  destruct fv as [f|], sv as [s|], st as [prev|]; simpl; try discriminate.
  destruct (prev <=? 0)%Z eqn:E1, (0 <? CrossOver.sign (f - s))%Z eqn:E2;
    simpl; try (destruct (_ && _); discriminate).
  intros _. exists prev, f, s. repeat split; try reflexivity.
  - now apply Z.leb_le.
  - now apply sign_pos, Z.ltb_lt.
Qed.

Lemma observe_cross_down (st : CrossOver.State) (fv sv : option Q) :
  snd (CrossOver.observe st fv sv) = CROSS_DOWN ->
  exists prev f s, st = Some prev /\ fv = Some f /\ sv = Some s
                   /\ (0 <= prev)%Z /\ f - s < 0.
Proof.
  unfold CrossOver.observe.
  destruct fv as [f|], sv as [s|], st as [prev|]; simpl; try discriminate.
  destruct ((prev <=? 0)%Z && (0 <? CrossOver.sign (f - s))%Z);
    [discriminate|].
  destruct (0 <=? prev)%Z eqn:E1, (CrossOver.sign (f - s) <? 0)%Z eqn:E2;
    simpl; try discriminate.
  intros _. exists prev, f, s. repeat split; try reflexivity.
  - now apply Z.leb_le.
  - now apply sign_neg, Z.ltb_lt.
Qed.

Lemma feed_snoc (xs : list (option Q * option Q)) (st : CrossOver.State)
      (f s : option Q) :
  CrossOver.feed st (xs ++ [(f, s)])
  = fst (CrossOver.observe (CrossOver.feed st xs) f s).
Proof.
  revert st. induction xs as [|[f0 s0] xs IH]; intros st; simpl; [reflexivity|].
  apply IH.
Qed.

(** The signal on bar [k] is the detector's answer in the state the first
    [k] bars left. *)
Lemma run_nth (xs : list (option Q * option Q)) (st : CrossOver.State)
      (k : nat) :
  nth_error (CrossOver.run st xs) k
  = option_map
      (fun x => snd (CrossOver.observe (CrossOver.feed st (firstn k xs))
                                       (fst x) (snd x)))
      (nth_error xs k).
Proof.
  revert st k. induction xs as [|[f s] xs IH]; intros st k.
  - destruct k; reflexivity.
  - destruct k as [|k]; simpl; [reflexivity|]. apply IH.
Qed.

Lemma nth_error_combine {A B : Type} (l1 : list A) (l2 : list B) (k : nat) :
  nth_error (combine l1 l2) k
  = match nth_error l1 k, nth_error l2 k with
    | Some a, Some b => Some (a, b)
    | _, _ => None
    end.
Proof.
  revert l2 k. induction l1 as [|a l1 IH]; intros l2 k.
  - destruct k; reflexivity.
  - destruct l2 as [|b l2].
    + destruct k; simpl; [reflexivity|]. now destruct (nth_error l1 k).
    + destruct k as [|k]; simpl; [reflexivity|]. apply IH.
Qed.

Lemma firstn_S_snoc {A : Type} (l : list A) (k : nat) (x : A) :
  nth_error l k = Some x -> firstn (S k) l = firstn k l ++ [x].
Proof.
  revert k. induction l as [|a l IH]; intros k H.
  - destruct k; discriminate.
  - destruct k as [|k]; simpl in *.
    + now injection H as ->.
    + f_equal. now apply IH.
Qed.

Section Pipeline.

Variables nfast nslow : nat.
Hypothesis nfast_pos : (0 < nfast)%nat.
Hypothesis nslow_pos : (0 < nslow)%nat.
Variable closes : list Q.

Let fast := SMA.run (SMA.create nfast) closes.
Let slow := SMA.run (SMA.create nslow) closes.

(** With both averages warmed up on bar [k], the detector stores the sign
    of that bar's (fast - slow); before that it stores nothing. *)
Lemma stored_sign_is_previous_bar (k : nat) :
  (k < length closes)%nat ->
  match CrossOver.feed CrossOver.create (firstn (S k) (combine fast slow)) with
  | None => (S k < nfast \/ S k < nslow)%nat
  | Some v => exists f s, nth_error fast k = Some (Some f)
                          /\ nth_error slow k = Some (Some s)
                          /\ v = CrossOver.sign (f - s)
  end.
Proof.
  induction k as [|k IH]; intros Hk.
  - pose proof (sma_run_spec nfast nfast_pos closes [] _ 0 (sma_create_inv _) Hk) as Hf.
    pose proof (sma_run_spec nslow nslow_pos closes [] _ 0 (sma_create_inv _) Hk) as Hs.
    cbn [length Nat.add] in Hf, Hs. fold fast in Hf. fold slow in Hs.
    destruct (Nat.ltb_spec 1 nfast) as [Lf|Lf].
    + rewrite (firstn_S_snoc _ 0 (None, snd (SMA.observe (SMA.create nslow) (hd 0 closes)))).
      * simpl. now left.
      * rewrite nth_error_combine, Hf.
        destruct closes as [|c cs]; [simpl in Hk; lia|]. subst slow. reflexivity.
    + destruct Hf as (f & Hf & _).
      destruct (Nat.ltb_spec 1 nslow) as [Ls|Ls].
      * rewrite (firstn_S_snoc _ 0 (Some f, None)).
        -- simpl. now right.
        -- now rewrite nth_error_combine, Hf, Hs.
      * destruct Hs as (s & Hs & _).
        rewrite (firstn_S_snoc _ 0 (Some f, Some s)).
        -- simpl. exists f, s. auto.
        -- now rewrite nth_error_combine, Hf, Hs.
  - specialize (IH ltac:(lia)).
    pose proof (sma_run_spec nfast nfast_pos closes [] _ (S k) (sma_create_inv _) Hk) as Hf.
    pose proof (sma_run_spec nslow nslow_pos closes [] _ (S k) (sma_create_inv _) Hk) as Hs.
    cbn [length Nat.add] in Hf, Hs. fold fast in Hf. fold slow in Hs.
    assert (Hx : exists fv sv, nth_error fast (S k) = Some fv
                               /\ nth_error slow (S k) = Some sv).
    { destruct (S (S k) <? nfast)%nat, (S (S k) <? nslow)%nat;
        repeat match goal with
               | H : exists _, _ |- _ => destruct H as (? & H & _)
               end; eauto. }
    destruct Hx as (fv & sv & Hfv & Hsv).
    rewrite (firstn_S_snoc _ (S k) (fv, sv))
      by now rewrite nth_error_combine, Hfv, Hsv.
    rewrite feed_snoc.
    destruct (Nat.ltb_spec (S (S k)) nfast) as [Lf|Lf].
    + rewrite Hfv in Hf. injection Hf as ->.
      destruct (CrossOver.feed _ _) as [v|]; [|simpl; now left].
      destruct IH as (f & s & IHf & _).
      pose proof (sma_run_spec nfast nfast_pos closes [] _ k (sma_create_inv _)
                               ltac:(lia)) as Hf'.
      cbn [length Nat.add] in Hf'. fold fast in Hf'.
      destruct (Nat.ltb_spec (S k) nfast); [congruence | lia].
    + destruct Hf as (f & Hf & _). rewrite Hfv in Hf. injection Hf as ->.
      destruct (Nat.ltb_spec (S (S k)) nslow) as [Ls|Ls].
      * rewrite Hsv in Hs. injection Hs as ->.
        destruct (CrossOver.feed _ _) as [v|]; [|simpl; now right].
        destruct IH as (f0 & s0 & _ & IHs & _).
        pose proof (sma_run_spec nslow nslow_pos closes [] _ k (sma_create_inv _)
                                 ltac:(lia)) as Hs'.
        cbn [length Nat.add] in Hs'. fold slow in Hs'.
        destruct (Nat.ltb_spec (S k) nslow); [congruence | lia].
      * destruct Hs as (s & Hs & _). rewrite Hsv in Hs. injection Hs as ->.
        unfold CrossOver.observe.
        destruct (CrossOver.feed _ _); simpl; exists f, s; auto.
Qed.

End Pipeline.

Lemma observe_undefined (st : CrossOver.State) (fv sv : option Q) :
  fv = None \/ sv = None -> CrossOver.observe st fv sv = (st, NONE).
Proof.
  intros [-> | ->]; [reflexivity|]. now destruct fv.
Qed.

Lemma observe_tie (st : CrossOver.State) (f s : Q) :
  f == s -> snd (CrossOver.observe st (Some f) (Some s)) <> CROSS_UP.
Proof.
  intros E H. apply observe_cross_up in H.
  destruct H as (prev & f' & s' & _ & [= <-] & [= <-] & _ & H).
  rewrite E in H. lra.
Qed.

(** The signal on bar [k] of the pipeline, traced back to the averages of
    bars [k-1] and [k]. *)
Lemma pipeline_signal (nfast nslow : nat) (closes : list Q) (k : nat) (sg : Signal) :
  (0 < nfast)%nat -> (0 < nslow)%nat ->
  nth_error (CrossOver.signals nfast nslow closes) k = Some sg ->
  sg <> NONE ->
  exists j prev fv sv,
    k = S j
    /\ CrossOver.feed CrossOver.create
         (firstn k (combine (SMA.run (SMA.create nfast) closes)
                            (SMA.run (SMA.create nslow) closes))) = Some prev
    /\ nth_error (SMA.run (SMA.create nfast) closes) k = Some fv
    /\ nth_error (SMA.run (SMA.create nslow) closes) k = Some sv
    /\ sg = snd (CrossOver.observe (Some prev) fv sv)
    /\ exists f0 s0,
        nth_error (SMA.run (SMA.create nfast) closes) j = Some (Some f0)
        /\ nth_error (SMA.run (SMA.create nslow) closes) j = Some (Some s0)
        /\ prev = CrossOver.sign (f0 - s0).
Proof.
  intros Hf Hs Hk Hsg. unfold CrossOver.signals in Hk.
  rewrite run_nth, nth_error_combine in Hk.
  destruct (nth_error (SMA.run (SMA.create nfast) closes) k) as [fv|] eqn:Efv;
    [|discriminate].
  destruct (nth_error (SMA.run (SMA.create nslow) closes) k) as [sv|] eqn:Esv;
    [|discriminate].
  simpl in Hk. injection Hk as Hk.
  destruct k as [|j].
  - simpl in Hk. subst sg. exfalso. apply Hsg.
    unfold CrossOver.observe, CrossOver.create. now destruct fv, sv.
  - assert (Hj : (j < length closes)%nat).
    { assert (H : nth_error (SMA.run (SMA.create nfast) closes) (S j) <> None) by congruence.
      apply nth_error_Some in H. rewrite sma_run_length in H. lia. }
    pose proof (stored_sign_is_previous_bar nfast nslow Hf Hs closes j Hj) as Hst.
    destruct (CrossOver.feed CrossOver.create _) as [prev|] eqn:Efeed.
    + exists j, prev, fv, sv. repeat split; auto.
    + exfalso. apply Hsg. subst sg.
      unfold CrossOver.observe. now destruct fv, sv.
Qed.

(** C4. In the detector, CROSS_UP is returned exactly when the stored sign
    is <= 0 and the current sign of (fast - slow) is > 0, CROSS_DOWN exactly
    in the mirror case; an UNDEFINED input gives NONE and leaves the stored
    sign as it was; a tie never gives CROSS_UP.  Fed by the two averages,
    the stored sign is the previous bar's: a CROSS_UP on bar k means
    fast - slow was <= 0 on bar k-1 and is > 0 on bar k, and the mirror for
    CROSS_DOWN. *)
Theorem crossover_only_on_sign_flip :
  (forall prev f s,
      snd (CrossOver.observe (Some prev) (Some f) (Some s)) = CROSS_UP
      <-> (prev <= 0)%Z /\ 0 < f - s)
  /\ (forall prev f s,
      snd (CrossOver.observe (Some prev) (Some f) (Some s)) = CROSS_DOWN
      <-> (0 <= prev)%Z /\ f - s < 0)
  /\ (forall f s,
      CrossOver.observe None (Some f) (Some s)
      = (Some (CrossOver.sign (f - s)), NONE))
  /\ (forall st fv sv,
      fv = None \/ sv = None -> CrossOver.observe st fv sv = (st, NONE))
  /\ (forall st f s,
      f == s -> snd (CrossOver.observe st (Some f) (Some s)) <> CROSS_UP)
  /\ (forall (nfast nslow : nat) (closes : list Q) (k : nat),
      (0 < nfast)%nat -> (0 < nslow)%nat ->
      (nth_error (CrossOver.signals nfast nslow closes) k = Some CROSS_UP ->
       exists j f0 s0 f1 s1,
         k = S j
         /\ nth_error (SMA.run (SMA.create nfast) closes) j = Some (Some f0)
         /\ nth_error (SMA.run (SMA.create nslow) closes) j = Some (Some s0)
         /\ nth_error (SMA.run (SMA.create nfast) closes) k = Some (Some f1)
         /\ nth_error (SMA.run (SMA.create nslow) closes) k = Some (Some s1)
         /\ f0 - s0 <= 0 /\ 0 < f1 - s1)
      /\ (nth_error (CrossOver.signals nfast nslow closes) k = Some CROSS_DOWN ->
          exists j f0 s0 f1 s1,
            k = S j
            /\ nth_error (SMA.run (SMA.create nfast) closes) j = Some (Some f0)
            /\ nth_error (SMA.run (SMA.create nslow) closes) j = Some (Some s0)
            /\ nth_error (SMA.run (SMA.create nfast) closes) k = Some (Some f1)
            /\ nth_error (SMA.run (SMA.create nslow) closes) k = Some (Some s1)
            /\ 0 <= f0 - s0 /\ f1 - s1 < 0)).
Proof.
  split; [|split; [|split; [|split; [|split]]]].
  - intros prev f s. split.
    + intros H. apply observe_cross_up in H.
      destruct H as (p & f' & s' & [= <-] & [= <-] & [= <-] & H1 & H2). auto.
    + intros [H1 H2]. simpl.
      apply Z.leb_le in H1. apply sign_pos, Z.ltb_lt in H2.
      now rewrite H1, H2.
  - intros prev f s. split.
    + intros H. apply observe_cross_down in H.
      destruct H as (p & f' & s' & [= <-] & [= <-] & [= <-] & H1 & H2). auto.
    + intros [H1 H2]. simpl.
      assert (H3 : (0 <? CrossOver.sign (f - s))%Z = false).
      { apply Z.ltb_ge. apply sign_neg in H2. lia. }
      apply Z.leb_le in H1. apply sign_neg, Z.ltb_lt in H2.
      now rewrite H3, andb_false_r, H1, H2.
  - reflexivity.
  - apply observe_undefined.
  - apply observe_tie.
  - intros nfast nslow closes k Hf Hs. split; intros Hk.
    + destruct (pipeline_signal _ _ _ _ _ Hf Hs Hk ltac:(discriminate))
        as (j & prev & fv & sv & -> & _ & Efv & Esv & Hobs & f0 & s0 & E0 & E1 & ->).
      symmetry in Hobs. apply observe_cross_up in Hobs.
      destruct Hobs as (p & f1 & s1 & [= <-] & -> & -> & H1 & H2).
      exists j, f0, s0, f1, s1. repeat split; auto.
      now apply sign_nonpos.
    + destruct (pipeline_signal _ _ _ _ _ Hf Hs Hk ltac:(discriminate))
        as (j & prev & fv & sv & -> & _ & Efv & Esv & Hobs & f0 & s0 & E0 & E1 & ->).
      symmetry in Hobs. apply observe_cross_down in Hobs.
      destruct Hobs as (p & f1 & s1 & [= <-] & -> & -> & H1 & H2).
      exists j, f0, s0, f1, s1. repeat split; auto.
      now apply sign_nonneg.
Qed.

Lemma crossover_only_on_sign_flip_witness :
  exists j f0 s0 f1 s1,
    2%nat = S j
    /\ nth_error (SMA.run (SMA.create 1) [10; 10; 20]) j = Some (Some f0)
    /\ nth_error (SMA.run (SMA.create 2) [10; 10; 20]) j = Some (Some s0)
    /\ nth_error (SMA.run (SMA.create 1) [10; 10; 20]) 2 = Some (Some f1)
    /\ nth_error (SMA.run (SMA.create 2) [10; 10; 20]) 2 = Some (Some s1)
    /\ f0 - s0 <= 0 /\ 0 < f1 - s1.
Proof.
  apply (proj1 (proj2 (proj2 (proj2 (proj2 (proj2 crossover_only_on_sign_flip))))
                 1%nat 2%nat [10; 10; 20] 2%nat ltac:(lia) ltac:(lia))).
  reflexivity.
Defined.

(** ** The engine, bar by bar *)

Lemma bind_ok {A B : Type} (r : Result A) (k : A -> Result B) (b : B) :
  bind r k = Ok b -> exists a, r = Ok a /\ k a = Ok b.
Proof.
  destruct r as [a|e]; simpl; [eauto | discriminate].
Qed.

Lemma Qpositive_lt (x : Q) : Engine.Qpositive x = true <-> 0 < x.
Proof.
  unfold Engine.Qpositive. rewrite negb_true_iff. split.
  - intros H. apply Qnot_le_lt. intros L. apply Qle_bool_iff in L. congruence.
  - intros H. destruct (Qle_bool x 0) eqn:E; [|reflexivity].
    apply Qle_bool_iff in E. lra.
Qed.

Lemma valid_bar_close (last : option Z) (b : Bar) :
  Engine.valid_bar last b = true -> 0 < close b.
Proof.
  unfold Engine.valid_bar. rewrite !andb_true_iff.
  intros (_ & H). now apply Qpositive_lt.
Qed.

Lemma advance_broker st b r : Engine.broker (Engine.advance st b r) = fst r.
Proof.
  unfold Engine.advance. now destruct (Engine.indicators st b) as [[[f s] c] sg].
Qed.

Lemma advance_trade_log st b r : Engine.trade_log (Engine.advance st b r) = snd r.
Proof.
  unfold Engine.advance. now destruct (Engine.indicators st b) as [[[f s] c] sg].
Qed.



Lemma advance_sma_slow st b r :
  Engine.sma_slow (Engine.advance st b r)
  = fst (SMA.observe (Engine.sma_slow st) (close b)).
Proof.
  reflexivity.
Qed.

(** A bar that goes through: it was valid, the strategy decided, the order
    (if any) was filled. *)
Lemma process_bar_ok p st b st' :
  Engine.process_bar p st b = Ok st' ->
  Engine.valid_bar (Engine.last_timestamp st) b = true
  /\ exists order r,
      Engine.decide p st b = Ok order
      /\ Engine.fill st b order = Ok r
      /\ st' = Engine.advance st b r.
Proof.
  unfold Engine.process_bar.
  destruct (Engine.valid_bar _ b); [|discriminate].
  intros H. split; [reflexivity|].
  apply bind_ok in H. destruct H as (order & Hd & H).
  apply bind_ok in H. destruct H as (r & Hf & H).
  injection H as <-. eauto.
Qed.

Lemma fill_ok st b order r :
  Engine.fill st b order = Ok r ->
  (order = None /\ r = (Engine.broker st, Engine.trade_log st))
  \/ exists sd n pf entry,
      order = Some (sd, n)
      /\ Broker.execute (Engine.broker st) (timestamp b)
                        (mkOrder sd n (close b)) (close b) = Ok (pf, entry)
      /\ r = (pf, Engine.trade_log st ++ [entry]).
Proof.
  destruct order as [[sd n]|]; simpl.
  - intros H. apply bind_ok in H. destruct H as ([pf entry] & He & H).
    injection H as <-. right. exists sd, n, pf, entry. auto.
  - intros [= <-]. now left.
Qed.

(** The decision table of [next], given the size it computed. *)
Lemma next_table (p : SmaCross.Params) (pos : Position) (sg : Signal)
      (equity price : Q) (sz : Z) :
  SmaCross.sizer p equity price = Ok sz ->
  SmaCross.next p pos (signal_value sg) equity price
  = Ok match SmaCross.state_of pos, sg with
       | SmaCross.FLAT, CROSS_UP => if (0 <? sz)%Z then Some (BUY, sz) else None
       | SmaCross.LONG, CROSS_DOWN => Some (SELL, size pos)
       | _, _ => None
       end.
Proof.
  intros Hs. unfold SmaCross.next, SmaCross.state_of. rewrite Hs. simpl.
  destruct (position_bool pos), sg; simpl; try reflexivity.
  now destruct (0 <? sz)%Z.
Qed.

Lemma sizer_ok (p : SmaCross.Params) (equity price : Q) :
  ~ price == 0 ->
  SmaCross.sizer p equity price
  = Ok (Py.int (equity * SmaCross.percent p / price)).
Proof.
  intros H. unfold SmaCross.sizer. now rewrite truediv_nonzero.
Qed.

Lemma sizer_fails (p : SmaCross.Params) (equity price : Q) :
  price == 0 -> SmaCross.sizer p equity price = Err ZeroDivisionError.
Proof.
  intros H. unfold SmaCross.sizer, Py.truediv.
  apply Qeq_eq_bool in H. now rewrite H.
Qed.

(** What an emitted order says about the bar it was emitted on. *)
Lemma next_buy p pos crossover equity price n :
  SmaCross.next p pos crossover equity price = Ok (Some (BUY, n)) ->
  SmaCross.state_of pos = SmaCross.FLAT /\ size pos = 0%Z
  /\ (0 < crossover)%Z
  /\ SmaCross.sizer p equity price = Ok n /\ (0 < n)%Z.
Proof.
  unfold SmaCross.next, SmaCross.state_of, position_bool.
  destruct (SmaCross.sizer p equity price) as [sz|e]; simpl; [|discriminate].
  destruct (size pos =? 0)%Z eqn:Ez; simpl.
  - destruct (0 <? crossover)%Z eqn:Ec; [|discriminate].
    destruct (0 <? sz)%Z eqn:Es; [|discriminate].
    intros [= <-]. apply Z.eqb_eq in Ez. apply Z.ltb_lt in Ec, Es. auto.
  - destruct (crossover <? 0)%Z; discriminate.
Qed.

Lemma next_sell p pos crossover equity price n :
  SmaCross.next p pos crossover equity price = Ok (Some (SELL, n)) ->
  SmaCross.state_of pos = SmaCross.LONG /\ size pos <> 0%Z
  /\ (crossover < 0)%Z /\ n = size pos.
Proof.
  unfold SmaCross.next, SmaCross.state_of, position_bool.
  destruct (SmaCross.sizer p equity price) as [sz|e]; simpl; [|discriminate].
  destruct (size pos =? 0)%Z eqn:Ez; simpl.
  - destruct (0 <? crossover)%Z; [|discriminate].
    destruct (0 <? sz)%Z; discriminate.
  - destruct (crossover <? 0)%Z eqn:Ec; [|discriminate].
    intros [= <-]. apply Z.eqb_neq in Ez. apply Z.ltb_lt in Ec. auto.
Qed.

Lemma signal_value_pos sg : (0 < signal_value sg)%Z <-> sg = CROSS_UP.
Proof.
  destruct sg; simpl; split; intros H; try reflexivity; try discriminate; lia.
Qed.

Lemma signal_value_neg sg : (signal_value sg < 0)%Z <-> sg = CROSS_DOWN.
Proof.
  destruct sg; simpl; split; intros H; try reflexivity; try discriminate; lia.
Qed.

(** ** The broker *)

Lemma execute_buy_ok pf ts n price pf' entry :
  Broker.execute pf ts (mkOrder BUY n price) price = Ok (pf', entry) ->
  inject_Z n * price + inject_Z n * price * commission_rate pf <= cash pf
  /\ pf' = mkPortfolio (cash pf - (inject_Z n * price
                                   + inject_Z n * price * commission_rate pf))
                       (mkPosition n price) (commission_rate pf)
  /\ entry = mkEntry ts BUY n price (cash pf').
Proof.
  unfold Broker.execute. simpl.
  destruct (Qle_bool _ (cash pf)) eqn:E; [|discriminate].
  intros [= <- <-]. apply Qle_bool_iff in E. auto.
Qed.

Lemma execute_sell pf ts n price :
  Broker.execute pf ts (mkOrder SELL n price) price
  = Ok (mkPortfolio (cash pf + (inject_Z n * price
                                - inject_Z n * price * commission_rate pf))
                    flat_position (commission_rate pf),
        mkEntry ts SELL n price
                (cash pf + (inject_Z n * price
                            - inject_Z n * price * commission_rate pf))).
Proof.
  reflexivity.
Qed.

Lemma execute_cash pf ts o price pf' entry :
  Broker.execute pf ts o price = Ok (pf', entry) ->
  commission_rate pf' = commission_rate pf
  /\ resulting_cash entry = cash pf'
  /\ log_side entry = side o /\ log_size entry = order_size o
  /\ log_price entry = price /\ log_timestamp entry = ts
  /\ match side o with
     | BUY => cash pf'
              == cash pf - inject_Z (order_size o) * price * (1 + commission_rate pf)
              /\ size (position pf') = order_size o
     | SELL => cash pf'
               == cash pf + inject_Z (order_size o) * price * (1 - commission_rate pf)
               /\ size (position pf') = 0%Z
     end.
Proof.
  unfold Broker.execute. destruct (side o) eqn:Es.
  - destruct (Qle_bool _ (cash pf)); [|discriminate].
    intros [= <- <-]. simpl. repeat split; auto. ring.
  - intros [= <- <-]. simpl. repeat split; auto. ring.
Qed.

(** C6. A BUY of size s at price p with commission rate r takes exactly
    s*p*(1+r) from cash, a SELL of size s at price p2 adds exactly
    s*p2*(1-r), and a bar changes cash only by executing one such order:
    with no order, cash is the same after the bar as before. *)
Theorem commission_accounting :
  (forall pf ts o p pf' entry,
      side o = BUY ->
      Broker.execute pf ts o p = Ok (pf', entry) ->
      cash pf' == cash pf - inject_Z (order_size o) * p * (1 + commission_rate pf))
  /\ (forall pf ts o p2,
      side o = SELL ->
      exists pf' entry,
        Broker.execute pf ts o p2 = Ok (pf', entry)
        /\ cash pf'
           == cash pf + inject_Z (order_size o) * p2 * (1 - commission_rate pf))
  /\ (forall p st b st',
      Engine.process_bar p st b = Ok st' ->
      (Engine.trade_log st' = Engine.trade_log st
       /\ cash (Engine.broker st') = cash (Engine.broker st))
      \/ exists entry,
          Engine.trade_log st' = Engine.trade_log st ++ [entry]
          /\ log_price entry = close b
          /\ resulting_cash entry = cash (Engine.broker st')
          /\ match log_side entry with
             | BUY => cash (Engine.broker st')
                      == cash (Engine.broker st)
                         - inject_Z (log_size entry) * close b
                           * (1 + commission_rate (Engine.broker st))
             | SELL => cash (Engine.broker st')
                       == cash (Engine.broker st)
                          + inject_Z (log_size entry) * close b
                            * (1 - commission_rate (Engine.broker st))
             end).
Proof.
  split; [|split].
  - intros pf ts o p pf' entry Hs He.
    apply execute_cash in He. rewrite Hs in He. apply He.
  - intros pf ts o p2 Hs.
    destruct (Broker.execute pf ts o p2) as [[pf' entry]|e] eqn:He.
    + exists pf', entry. split; [reflexivity|].
      apply execute_cash in He. rewrite Hs in He. apply He.
    + unfold Broker.execute in He. rewrite Hs in He. discriminate.
  - intros p st b st' H.
    apply process_bar_ok in H. destruct H as (_ & order & r & _ & Hf & ->).
    rewrite advance_broker, advance_trade_log.
    apply fill_ok in Hf.
    destruct Hf as [[_ ->] | (sd & n & pf & entry & _ & He & ->)].
    + left. split; reflexivity.
    + right. exists entry. simpl.
      apply execute_cash in He. simpl in He.
      destruct He as (_ & Hc & Hsd & Hn & Hp & _ & Hcash).
      rewrite Hsd, Hn. repeat split; auto.
      destruct sd; apply Hcash.
Qed.

Lemma commission_accounting_witness :
  match Broker.execute (mkPortfolio 2910 flat_position (1 # 100)) 7
                       (mkOrder BUY 100 10) 10 with
  | Ok (pf', _) =>
      cash pf' == 2910 - inject_Z 100 * 10 * (1 + (1 # 100))
  | Err _ => False
  end.
Proof.
  destruct (Broker.execute (mkPortfolio 2910 flat_position (1 # 100)) 7
                           (mkOrder BUY 100 10) 10)
    as [[pf' entry]|e] eqn:He; [|vm_compute in He; discriminate].
  exact (proj1 commission_accounting
               (mkPortfolio 2910 flat_position (1 # 100)) 7%Z
               (mkOrder BUY 100 10) 10 pf' entry eq_refl He).
Defined.

(** ** The strategy as a two-state machine *)

Lemma alternating_snoc (first x : Side) (l : list Side) :
  alternating first l ->
  x = (if Nat.even (length l) then first else other first) ->
  alternating first (l ++ [x]).
Proof.
  revert first. induction l as [|a l IH]; intros first Ha Hx.
  - simpl in *. auto.
  - destruct Ha as [-> Ha]. simpl. split; [reflexivity|].
    apply IH; [exact Ha|].
    change (length (first :: l)) with (S (length l)) in Hx.
    rewrite Nat.even_succ, <- Nat.negb_even in Hx.
    destruct (Nat.even (length l)), first; exact Hx.
Qed.

Lemma state_of_flat pos : SmaCross.state_of pos = SmaCross.FLAT <-> size pos = 0%Z.
Proof.
  unfold SmaCross.state_of, position_bool.
  destruct (Z.eqb_spec (size pos) 0); simpl; split; intros H;
    try reflexivity; try discriminate; auto; contradiction.
Qed.

Lemma state_of_long pos : SmaCross.state_of pos = SmaCross.LONG <-> size pos <> 0%Z.
Proof.
  unfold SmaCross.state_of, position_bool.
  destruct (Z.eqb_spec (size pos) 0); simpl; split; intros H;
    try reflexivity; try discriminate; auto; contradiction.
Qed.

Lemma init_inv cfg : strategy_inv (Engine.init cfg).
Proof.
  repeat split; simpl; lia.
Qed.

Lemma process_bar_inv p st b st' :
  Engine.process_bar p st b = Ok st' -> strategy_inv st -> strategy_inv st'.
Proof.
  intros H (Ha & Hs & Hp).
  apply process_bar_ok in H. destruct H as (_ & order & r & Hd & Hf & ->).
  unfold strategy_inv. rewrite advance_broker, advance_trade_log.
  apply fill_ok in Hf.
  destruct Hf as [[_ ->] | (sd & n & pf & entry & -> & He & ->)]; [auto|].
  apply execute_cash in He. simpl in He.
  destruct He as (_ & _ & Hsd & _ & _ & _ & Hcash). simpl.
  rewrite map_app, length_app. simpl.
  replace (length (Engine.trade_log st) + 1)%nat
    with (S (length (Engine.trade_log st))) by lia.
  rewrite Nat.even_succ, <- Nat.negb_even.
  unfold Engine.decide in Hd. destruct sd.
  - apply next_buy in Hd. destruct Hd as (Hfl & _ & _ & _ & Hn).
    destruct Hcash as [_ Hsz].
    rewrite Hfl in Hs.
    destruct (Nat.even (length (Engine.trade_log st))) eqn:Ev; [|discriminate].
    repeat split.
    + apply alternating_snoc; [exact Ha|].
      now rewrite length_map, Ev.
    + apply state_of_long. lia.
    + lia.
  - apply next_sell in Hd. destruct Hd as (Hlg & _ & _ & _).
    destruct Hcash as [_ Hsz].
    rewrite Hlg in Hs.
    destruct (Nat.even (length (Engine.trade_log st))) eqn:Ev; [discriminate|].
    repeat split.
    + apply alternating_snoc; [exact Ha|].
      now rewrite length_map, Ev.
    + apply state_of_flat. exact Hsz.
    + lia.
Qed.

Lemma run_bars_inv p bars st st' :
  Engine.run_bars p st bars = Ok st' -> strategy_inv st -> strategy_inv st'.
Proof.
  revert st. induction bars as [|b rest IH]; intros st H Hinv; simpl in H.
  - now injection H as <-.
  - apply bind_ok in H. destruct H as (st1 & H1 & H2).
    eapply IH; [exact H2|]. eapply process_bar_inv; eassumption.
Qed.

(** An event is what [decide] answered in the state the bar found. *)
Lemma observe_bar_ok p st b ev :
  Engine.observe_bar p st b = Ok ev ->
  Engine.valid_bar (Engine.last_timestamp st) b = true
  /\ Engine.decide p st b = Ok (Engine.ev_order ev)
  /\ SmaCross.sizer p (Broker.value (Engine.broker st) (close b)) (close b)
     = Ok (Engine.ev_size ev)
  /\ Engine.ev_state ev = SmaCross.state_of (position (Engine.broker st))
  /\ Engine.ev_held ev = size (position (Engine.broker st))
  /\ Engine.ev_signal ev = Engine.bar_signal st b.
Proof.
  unfold Engine.observe_bar.
  destruct (Engine.valid_bar _ b); [|discriminate].
  intros H. apply bind_ok in H. destruct H as (sz & Hsz & H).
  apply bind_ok in H. destruct H as (order & Hd & H).
  injection H as <-. simpl. repeat split; assumption.
Qed.

(** A property of single bars holds of every event of a run. *)
Lemma events_local (P : Engine.Event -> Prop) p :
  (forall st b ev, Engine.observe_bar p st b = Ok ev -> P ev) ->
  forall bars st k ev,
    nth_error (Engine.events p st bars) k = Some ev -> P ev.
Proof.
  intros HP. induction bars as [|b rest IH]; intros st k ev H.
  - destruct k; discriminate.
  - simpl in H.
    destruct (Engine.observe_bar p st b) as [ev0|e] eqn:Eo;
      [|destruct k; discriminate].
    destruct k as [|k].
    + injection H as <-. eapply HP; eassumption.
    + simpl in H. destruct (Engine.process_bar p st b) as [st'|e];
        [|destruct k; discriminate].
      eapply IH; eassumption.
Qed.

Lemma event_orders p st b ev :
  Engine.observe_bar p st b = Ok ev ->
  (forall n, Engine.ev_order ev = Some (BUY, n) ->
             Engine.ev_state ev = SmaCross.FLAT
             /\ Engine.ev_signal ev = CROSS_UP
             /\ n = Engine.ev_size ev /\ (0 < n)%Z)
  /\ (forall n, Engine.ev_order ev = Some (SELL, n) ->
                Engine.ev_state ev = SmaCross.LONG
                /\ Engine.ev_signal ev = CROSS_DOWN
                /\ n = Engine.ev_held ev)
  /\ (Engine.ev_order ev = None
      \/ exists n, Engine.ev_order ev = Some (BUY, n)
      \/ Engine.ev_order ev = Some (SELL, n)).
Proof.
  intros H. apply observe_bar_ok in H.
  destruct H as (_ & Hd & Hsz & Hst & Hh & Hsg).
  unfold Engine.decide in Hd. rewrite Hst, Hh, Hsg. repeat split.
  - rewrite H in Hd. now apply next_buy in Hd.
  - rewrite H in Hd. apply next_buy in Hd.
    now apply signal_value_pos.
  - rewrite H in Hd. apply next_buy in Hd.
    destruct Hd as (_ & _ & _ & Hs & _). congruence.
  - rewrite H in Hd. now apply next_buy in Hd.
  - rewrite H in Hd. now apply next_sell in Hd.
  - rewrite H in Hd. apply next_sell in Hd.
    now apply signal_value_neg.
  - rewrite H in Hd. now apply next_sell in Hd.
  - destruct (Engine.ev_order ev) as [[[|] n]|]; eauto.
Qed.

(** C1. The strategy starts FLAT.  FLAT with CROSS_UP emits a BUY of the
    computed size when that size is positive (and the fill makes it LONG),
    nothing otherwise; LONG with CROSS_DOWN emits a SELL of the whole
    position (and the fill makes it FLAT); every other pair emits nothing.
    So in every run a BUY is emitted only while FLAT and a SELL only while
    LONG, and the trade log alternates BUY, SELL, BUY, ...: at most one
    position is open at any time. *)
Theorem strategy_state_machine :
  (forall cfg,
      SmaCross.state_of (position (Engine.broker (Engine.init cfg)))
      = SmaCross.FLAT)
  /\ (forall p pos sg equity price sz,
      SmaCross.sizer p equity price = Ok sz ->
      SmaCross.next p pos (signal_value sg) equity price
      = Ok match SmaCross.state_of pos, sg with
           | SmaCross.FLAT, CROSS_UP =>
               if (0 <? sz)%Z then Some (BUY, sz) else None
           | SmaCross.LONG, CROSS_DOWN => Some (SELL, size pos)
           | _, _ => None
           end)
  /\ (forall pf ts n price pf' entry,
      (0 < n)%Z ->
      Broker.execute pf ts (mkOrder BUY n price) price = Ok (pf', entry) ->
      SmaCross.state_of (position pf') = SmaCross.LONG
      /\ size (position pf') = n)
  /\ (forall pf ts n price,
      exists pf' entry,
        Broker.execute pf ts (mkOrder SELL n price) price = Ok (pf', entry)
        /\ SmaCross.state_of (position pf') = SmaCross.FLAT)
  /\ (forall cfg bars k ev,
      nth_error (Engine.events (strategy cfg) (Engine.init cfg) bars) k = Some ev ->
      (forall n, Engine.ev_order ev = Some (BUY, n) ->
                 Engine.ev_state ev = SmaCross.FLAT
                 /\ Engine.ev_signal ev = CROSS_UP
                 /\ n = Engine.ev_size ev /\ (0 < n)%Z)
      /\ (forall n, Engine.ev_order ev = Some (SELL, n) ->
                    Engine.ev_state ev = SmaCross.LONG
                    /\ Engine.ev_signal ev = CROSS_DOWN
                    /\ n = Engine.ev_held ev))
  /\ (forall cfg bars st,
      Engine.run_bars (strategy cfg) (Engine.init cfg) bars = Ok st ->
      alternating BUY (map log_side (Engine.trade_log st))
      /\ SmaCross.state_of (position (Engine.broker st))
         = (if Nat.even (length (Engine.trade_log st))
            then SmaCross.FLAT else SmaCross.LONG)
      /\ (0 <= size (position (Engine.broker st)))%Z).
Proof.
  split; [reflexivity|].
  split; [exact next_table|].
  split.
  { intros pf ts n price pf' entry Hn He.
    apply execute_cash in He. simpl in He.
    destruct He as (_ & _ & _ & _ & _ & _ & _ & Hsz).
    split; [apply state_of_long; lia | exact Hsz]. }
  split.
  { intros pf ts n price. eexists _, _. split; [apply execute_sell|].
    reflexivity. }
  split.
  { intros cfg bars k ev H.
    pose proof (events_local
                  (fun ev =>
                     (forall n, Engine.ev_order ev = Some (BUY, n) ->
                                Engine.ev_state ev = SmaCross.FLAT
                                /\ Engine.ev_signal ev = CROSS_UP
                                /\ n = Engine.ev_size ev /\ (0 < n)%Z)
                     /\ (forall n, Engine.ev_order ev = Some (SELL, n) ->
                                   Engine.ev_state ev = SmaCross.LONG
                                   /\ Engine.ev_signal ev = CROSS_DOWN
                                   /\ n = Engine.ev_held ev))
                  (strategy cfg)) as L.
    eapply L; [|exact H].
    intros st b ev' Ho. pose proof (event_orders _ _ _ _ Ho) as (H1 & H2 & _).
    split; assumption. }
  intros cfg bars st H.
  exact (run_bars_inv _ _ _ _ H (init_inv cfg)).
Qed.

Lemma strategy_state_machine_witness :
  match Engine.run_bars (strategy demo_config) (Engine.init demo_config)
                        demo_bars with
  | Ok st =>
      alternating BUY (map log_side (Engine.trade_log st))
      /\ SmaCross.state_of (position (Engine.broker st))
         = (if Nat.even (length (Engine.trade_log st))
            then SmaCross.FLAT else SmaCross.LONG)
      /\ (0 <= size (position (Engine.broker st)))%Z
  | Err _ => False
  end.
Proof.
  destruct (Engine.run_bars (strategy demo_config) (Engine.init demo_config)
                            demo_bars) as [st|e] eqn:He;
    [|vm_compute in He; discriminate].
  exact (proj2 (proj2 (proj2 (proj2 (proj2 strategy_state_machine))))
               demo_config demo_bars st He).
Defined.

(** ** A zero-size cross up is not retried *)

Lemma process_bar_hold p st b st' :
  Engine.process_bar p st b = Ok st' ->
  Engine.decide p st b = Ok None ->
  Engine.broker st' = Engine.broker st
  /\ Engine.trade_log st' = Engine.trade_log st.
Proof.
  intros H Hd. apply process_bar_ok in H.
  destruct H as (_ & order & r & Hd' & Hf & ->).
  rewrite Hd in Hd'. injection Hd' as <-. simpl in Hf. injection Hf as <-.
  now rewrite advance_broker, advance_trade_log.
Qed.

(** The event on bar [i], the state that bar found, and where the later
    events come from. *)
Lemma events_at p bars st i ev :
  nth_error (Engine.events p st bars) i = Some ev ->
  exists st_i b rest,
    Engine.observe_bar p st_i b = Ok ev
    /\ forall k,
        nth_error (Engine.events p st bars) (S (i + k))
        = match Engine.process_bar p st_i b with
          | Ok st' => nth_error (Engine.events p st' rest) k
          | Err _ => None
          end.
Proof.
  revert st i. induction bars as [|b rest IH]; intros st i H.
  - destruct i; discriminate.
  - simpl in H. simpl.
    destruct (Engine.observe_bar p st b) as [ev0|e] eqn:Eo;
      [|destruct i; discriminate].
    destruct i as [|i].
    + injection H as <-. exists st, b, rest. split; [exact Eo|].
      intros k. simpl.
      destruct (Engine.process_bar p st b); [reflexivity | now destruct k].
    + simpl in H.
      destruct (Engine.process_bar p st b) as [st'|e] eqn:Ep;
        [|destruct i; discriminate].
      destruct (IH st' i H) as (st_i & b' & rest' & Ho & Hk).
      exists st_i, b', rest'. split; [exact Ho|].
      intros k. simpl. apply Hk.
Qed.

Lemma event_flat_quiet p st b ev :
  Engine.observe_bar p st b = Ok ev ->
  Engine.ev_state ev = SmaCross.FLAT ->
  Engine.ev_signal ev <> CROSS_UP \/ (Engine.ev_size ev <= 0)%Z ->
  Engine.ev_order ev = None /\ Engine.decide p st b = Ok None.
Proof.
  intros Ho Hst Hq. apply observe_bar_ok in Ho.
  destruct Ho as (_ & Hd & Hsz & Hs & _ & Hsg).
  assert (E : Engine.ev_order ev = None).
  { unfold Engine.decide in Hd.
    rewrite (next_table _ _ _ _ _ _ Hsz), <- Hs, Hst, <- Hsg in Hd.
    destruct (Engine.ev_signal ev); try (injection Hd as <-; reflexivity).
    destruct Hq as [Hq|Hq]; [contradiction|].
    destruct (Z.ltb_spec 0 (Engine.ev_size ev)); [lia|].
    now injection Hd as <-. }
  split; [exact E | now rewrite <- E].
Qed.

(** From a FLAT state, as long as no bar carries CROSS_UP, every bar finds
    the strategy FLAT and emits nothing. *)
Lemma flat_until_cross_up p bars st j :
  SmaCross.state_of (position (Engine.broker st)) = SmaCross.FLAT ->
  (forall k ev, (k < j)%nat ->
                nth_error (Engine.events p st bars) k = Some ev ->
                Engine.ev_signal ev <> CROSS_UP) ->
  forall k ev, (k < j)%nat ->
               nth_error (Engine.events p st bars) k = Some ev ->
               Engine.ev_state ev = SmaCross.FLAT /\ Engine.ev_order ev = None.
Proof.
  revert st j. induction bars as [|b rest IH]; intros st j Hfl Hq k ev Hk H.
  - destruct k; discriminate.
  - simpl in H, Hq.
    destruct (Engine.observe_bar p st b) as [ev0|e] eqn:Eo;
      [|destruct k; discriminate].
    assert (Hst0 : Engine.ev_state ev0 = SmaCross.FLAT).
    { apply observe_bar_ok in Eo. destruct Eo as (_ & _ & _ & -> & _).
      exact Hfl. }
    assert (H0 : Engine.ev_order ev0 = None /\ Engine.decide p st b = Ok None).
    { eapply event_flat_quiet; [exact Eo | exact Hst0 |].
      left. apply (Hq 0%nat); [lia | reflexivity]. }
    destruct k as [|k].
    + injection H as <-. split; [exact Hst0 | apply H0].
    + simpl in H.
      destruct (Engine.process_bar p st b) as [st'|e] eqn:Ep;
        [|destruct k; discriminate].
      destruct (process_bar_hold _ _ _ _ Ep (proj2 H0)) as [Hb _].
      apply (IH st' (pred j)) with (k := k); [now rewrite Hb | | lia | exact H].
      intros k' ev' Hk' H'. apply (Hq (S k')); [lia | exact H'].
Qed.

(** C10. When a CROSS_UP bar finds the strategy FLAT and the computed size
    is 0, no order is emitted on that bar; and on the bars after it, up to
    any bar before which no further CROSS_UP occurs, the strategy is still
    FLAT and emits nothing, whatever size those bars compute. *)
Theorem zero_size_cross_up_not_retried (cfg : Config) (bars : list Bar)
        (i : nat) (ev : Engine.Event) :
  nth_error (Engine.events (strategy cfg) (Engine.init cfg) bars) i = Some ev ->
  Engine.ev_signal ev = CROSS_UP ->
  Engine.ev_state ev = SmaCross.FLAT ->
  Engine.ev_size ev = 0%Z ->
  Engine.ev_order ev = None
  /\ forall j,
      (forall k ev', (i < k <= j)%nat ->
                     nth_error (Engine.events (strategy cfg) (Engine.init cfg) bars) k
                     = Some ev' ->
                     Engine.ev_signal ev' <> CROSS_UP) ->
      forall k ev', (i < k <= j)%nat ->
                    nth_error (Engine.events (strategy cfg) (Engine.init cfg) bars) k
                    = Some ev' ->
                    Engine.ev_state ev' = SmaCross.FLAT
                    /\ Engine.ev_order ev' = None.
Proof.
  intros H Hsg Hst Hsz.
  destruct (events_at _ _ _ _ _ H) as (st_i & b & rest & Ho & Hlater).
  destruct (event_flat_quiet _ _ _ _ Ho Hst ltac:(right; lia)) as [Hnone Hd].
  split; [exact Hnone|].
  intros j Hq k ev' Hk H'.
  replace k with (S (i + (k - S i)))%nat in H' by lia.
  rewrite Hlater in H'.
  destruct (Engine.process_bar (strategy cfg) st_i b) as [st'|e] eqn:Ep;
    [|discriminate].
  destruct (process_bar_hold _ _ _ _ Ep Hd) as [Hb _].
  apply (flat_until_cross_up (strategy cfg) rest st' (j - i)%nat)
    with (k := (k - S i)%nat); [| | lia | exact H'].
  - rewrite Hb. apply observe_bar_ok in Ho.
    destruct Ho as (_ & _ & _ & <- & _). exact Hst.
  - intros k' ev'' Hk' H''. apply (Hq (S (i + k'))); [lia|].
    rewrite Hlater. exact H''.
Qed.

Lemma zero_size_cross_up_not_retried_witness :
  nth_error (Engine.events (strategy dear_config) (Engine.init dear_config)
                           dear_bars) 4
  = Some (Engine.mkEvent SmaCross.FLAT 0 NONE 1 None)
  /\ Engine.ev_state (Engine.mkEvent SmaCross.FLAT 0 NONE 1 None) = SmaCross.FLAT
  /\ Engine.ev_order (Engine.mkEvent SmaCross.FLAT 0 NONE 1 None) = None.
Proof.
  split; [vm_compute; reflexivity|].
  refine (proj2 (zero_size_cross_up_not_retried
                   dear_config dear_bars 2
                   (Engine.mkEvent SmaCross.FLAT 0 CROSS_UP 0 None)
                   _ eq_refl eq_refl eq_refl)
                4%nat _ 4%nat _ _ _).
  - vm_compute. reflexivity.
  - intros k ev' Hk.
    assert (Hk' : k = 3%nat \/ k = 4%nat) by lia.
    destruct Hk' as [-> | ->]; vm_compute; intros [= <-]; discriminate.
  - lia.
  - vm_compute. reflexivity.
Defined.

(** ** Runs shorter than the slow period *)







(** ** The broker's guard and the sizing formula *)

Lemma next_err p pos crossover equity price e :
  SmaCross.next p pos crossover equity price = Err e -> e = ZeroDivisionError.
Proof.
  unfold SmaCross.next, SmaCross.sizer, Py.truediv.
  destruct (Qeq_bool price 0); simpl.
  - now intros [= <-].
  - destruct (_ && _); [destruct (0 <? _)%Z; discriminate|].
    destruct (_ && _); discriminate.
Qed.

(** What becomes of a BUY the strategy has decided on, whatever its size. *)
Lemma buy_decision_outcome p st b n :
  Engine.valid_bar (Engine.last_timestamp st) b = true ->
  Engine.decide p st b = Ok (Some (BUY, n)) ->
  (Engine.process_bar p st b = Err INSUFFICIENT_FUNDS
   <-> cash (Engine.broker st)
       < inject_Z n * close b * (1 + commission_rate (Engine.broker st)))
  /\ (inject_Z n * close b * (1 + commission_rate (Engine.broker st))
      <= cash (Engine.broker st) ->
      exists st',
        Engine.process_bar p st b = Ok st'
        /\ size (position (Engine.broker st')) = n).
Proof.
  intros Hv Hd. unfold Engine.process_bar. rewrite Hv, Hd.
  unfold bind, Engine.fill, bind, Broker.execute. cbn [side order_size].
  assert (Hc : inject_Z n * close b
               + inject_Z n * close b * commission_rate (Engine.broker st)
               == inject_Z n * close b
                  * (1 + commission_rate (Engine.broker st))) by ring.
  destruct (Qle_bool _ (cash (Engine.broker st))) eqn:E.
  - apply Qle_bool_iff in E. rewrite Hc in E. split.
    + split; [discriminate|]. intros H. lra.
    + intros _. eexists. split; [reflexivity|].
      now rewrite advance_broker.
  - assert (E' : ~ inject_Z n * close b
                   * (1 + commission_rate (Engine.broker st))
                   <= cash (Engine.broker st)).
    { intros H. rewrite <- Hc in H. apply Qle_bool_iff in H. congruence. }
    split.
    + split; [intros _; now apply Qnot_le_lt | reflexivity].
    + intros H. contradiction.
Qed.

(** C8, as the code has it.  A BUY whose cost plus commission exceeds cash
    fails with INSUFFICIENT_FUNDS; one that cash covers is filled at its
    full size, never a smaller one.  The size the strategy computes does
    not keep the run clear of that failure: a BUY it has decided on is
    rejected exactly when size * close * (1 + rate) exceeds the cash, and
    the size is neither reduced by the commission nor safe from rounding
    (at equity 1000, fraction 1 and price 58.82352941176471 line 31 sizes
    17 shares, which cost more than 1000 even with no commission). *)
Theorem insufficient_funds_guard :
  (forall pf ts o price,
      side o = BUY ->
      cash pf < inject_Z (order_size o) * price
                + inject_Z (order_size o) * price * commission_rate pf ->
      Broker.execute pf ts o price = Err INSUFFICIENT_FUNDS)
  /\ (forall pf ts o price,
      side o = BUY ->
      inject_Z (order_size o) * price
      + inject_Z (order_size o) * price * commission_rate pf <= cash pf ->
      exists pf' entry,
        Broker.execute pf ts o price = Ok (pf', entry)
        /\ size (position pf') = order_size o
        /\ log_size entry = order_size o)
  /\ (forall p st b n,
      Engine.valid_bar (Engine.last_timestamp st) b = true ->
      Engine.decide p st b = Ok (Some (BUY, n)) ->
      (Engine.process_bar p st b = Err INSUFFICIENT_FUNDS
       <-> cash (Engine.broker st)
           < inject_Z n * close b * (1 + commission_rate (Engine.broker st)))
      /\ (inject_Z n * close b * (1 + commission_rate (Engine.broker st))
          <= cash (Engine.broker st) ->
          exists st',
            Engine.process_bar p st b = Ok st'
            /\ size (position (Engine.broker st')) = n))
  /\ (SmaCross.sizer_binary64 1000 1 58.82352941176471 = Some 17%Z
      /\ exists c,
          float_value 58.82352941176471 = Some c
          /\ 1000 < inject_Z 17 * c).
Proof.
  split; [|split; [|split]].
  - intros pf ts o price Hs Hlt. unfold Broker.execute. rewrite Hs.
    destruct (Qle_bool _ (cash pf)) eqn:E; [|reflexivity].
    apply Qle_bool_iff in E. lra.
  - intros pf ts o price Hs Hle. unfold Broker.execute. rewrite Hs.
    apply Qle_bool_iff in Hle. rewrite Hle. eexists _, _.
    split; [reflexivity|]. split; reflexivity.
  - exact buy_decision_outcome.
  - split; [vm_compute; reflexivity|].
    destruct (float_value 58.82352941176471) as [c|] eqn:Ec;
      [|vm_compute in Ec; discriminate].
    exists c. split; [reflexivity|].
    vm_compute in Ec. injection Ec as <-. vm_compute. reflexivity.
Qed.

Lemma insufficient_funds_guard_witness :
  Broker.execute (mkPortfolio 1000 flat_position (1 # 1000)) 31
                 (mkOrder BUY 50 20) 20
  = Err INSUFFICIENT_FUNDS.
Proof.
  apply (proj1 insufficient_funds_guard
               (mkPortfolio 1000 flat_position (1 # 1000)) 31%Z
               (mkOrder BUY 50 20) 20);
    reflexivity.
Defined.

(** C8, as the claim states it, fails: with everything invested (fraction
    1) and the default commission rate 0.001, the first BUY the strategy
    sizes (50 shares at 20, in binary64 as over the rationals) costs more
    than the cash at hand and the run stops with INSUFFICIENT_FUNDS. *)
Lemma insufficient_funds_reachable :
  valid_config (mkConfig (addstrategy 1) 1000 (1 # 1000))
  /\ valid_bars None crossing_bars = true
  /\ run_backtest 1 1000 (1 # 1000) crossing_bars = Err INSUFFICIENT_FUNDS
  /\ SmaCross.sizer_binary64 1000 1 20 = Some 50%Z.
Proof.
  split; [|split; [|split]; vm_compute; reflexivity].
  unfold valid_config. simpl. repeat split; try lia; try reflexivity;
    discriminate.
Qed.

(** ** Every way a bar can go *)

Lemma bar_step_sound p st b : Engine.bar_step p st b (Engine.process_bar p st b).
Proof.
  unfold Engine.process_bar.
  destruct (Engine.valid_bar (Engine.last_timestamp st) b) eqn:Hv;
    [|now apply Engine.step_invalid].
  destruct (Engine.decide p st b) as [[[sd n]|]|e] eqn:Hd; simpl.
  - destruct (Broker.execute (Engine.broker st) (timestamp b)
                             (mkOrder sd n (close b)) (close b))
      as [[pf entry]|e] eqn:He; simpl.
    + eapply Engine.step_fill; eassumption.
    + eapply Engine.step_reject; eassumption.
  - now apply Engine.step_hold.
  - now apply Engine.step_fault.
Qed.

(** ** What setup checks and what it does not *)

Lemma process_bar_not_config p st b : Engine.process_bar p st b <> Err CONFIG_ERROR.
Proof.
  pose proof (bar_step_sound p st b) as H.
  intros E. rewrite E in H. inversion H; subst.
  - unfold Engine.decide in *.
    match goal with Hd : SmaCross.next _ _ _ _ _ = Err _ |- _ =>
      apply next_err in Hd; discriminate end.
  - match goal with He : Broker.execute _ _ _ _ = Err _ |- _ =>
      unfold Broker.execute in He; simpl in He;
      destruct sd; [destruct (Qle_bool _ _)|]; discriminate end.
Qed.

Lemma run_bars_not_config p bars st : Engine.run_bars p st bars <> Err CONFIG_ERROR.
Proof.
  revert st. induction bars as [|b rest IH]; intros st; simpl; [discriminate|].
  destruct (Engine.process_bar p st b) as [st'|e] eqn:Ep; simpl; [apply IH|].
  intros [= ->]. now apply (process_bar_not_config p st b).
Qed.

Lemma int_nonpos (q : Q) : q <= 0 -> (Py.int q <= 0)%Z.
Proof.
  destruct q as [n d]. unfold Qle, Py.int. simpl. intros H.
  assert (Hopp : (0 <= Z.quot (- n) (Zpos d))%Z) by (apply Z.quot_pos; lia).
  rewrite Z.quot_opp_l in Hopp by lia. lia.
Qed.

(** With a fraction that is not positive, a flat portfolio with cash that
    is not negative never buys: every bar leaves broker and log alone. *)
Lemma run_bars_never_buys p bars st st' :
  SmaCross.percent p <= 0 ->
  size (position (Engine.broker st)) = 0%Z ->
  0 <= cash (Engine.broker st) ->
  Engine.run_bars p st bars = Ok st' ->
  Engine.trade_log st' = Engine.trade_log st.
Proof.
  intros Hf. revert st. induction bars as [|b rest IH]; intros st Hz Hc H.
  - now injection H as <-.
  - simpl in H. apply bind_ok in H. destruct H as (st1 & H1 & H2).
    assert (Hd : Engine.decide p st b = Ok None).
    { pose proof (process_bar_ok _ _ _ _ H1) as (Hv & _).
      apply valid_bar_close in Hv.
      assert (Hne : ~ close b == 0)
        by (intros E; rewrite E in Hv; discriminate).
      unfold Engine.decide.
      rewrite (next_table _ _ _ _ _ _ (sizer_ok p _ _ Hne)).
      rewrite (proj2 (state_of_flat _) Hz).
      destruct (Engine.bar_signal st b); try reflexivity.
      destruct (Z.ltb_spec 0 (Py.int (Broker.value (Engine.broker st) (close b)
                                      * SmaCross.percent p / close b)));
        [|reflexivity].
      exfalso.
      assert (Hq : Broker.value (Engine.broker st) (close b)
                   * SmaCross.percent p / close b <= 0).
      { assert (Hval : Broker.value (Engine.broker st) (close b)
                       == cash (Engine.broker st)).
        { unfold Broker.value. rewrite Hz. simpl. ring. }
        rewrite Hval. unfold Qdiv.
        assert (Hi : 0 < / close b) by now apply Qinv_lt_0_compat.
        assert (Hx : 0 <= - (cash (Engine.broker st) * SmaCross.percent p)) by nra.
        pose proof (Qmult_le_0_compat _ _ Hx (Qlt_le_weak _ _ Hi)) as Hy.
        lra. }
      apply int_nonpos in Hq. lia. }
    destruct (process_bar_hold _ _ _ _ H1 Hd) as [Hb Hl].
    rewrite <- Hl. apply IH; [now rewrite Hb | now rewrite Hb | exact H2].
Qed.

Lemma driver_config_checked pct cash0 rate :
  0 <= rate ->
  Engine.check_config (mkConfig (addstrategy pct) cash0 rate) = true.
Proof.
  intros H. unfold Engine.check_config. simpl.
  now apply Qle_bool_iff.
Qed.

(** C7, as the code has it.  A non-positive period or a negative commission
    rate stops the run with CONFIG_ERROR whatever the bars.  The fraction is
    not looked at: [run_backtest] is never stopped by CONFIG_ERROR once the
    commission is not negative, and with no bars it completes for every
    fraction.  An out-of-range fraction shows at trade time only: with a
    fraction <= 0 and cash >= 0 a completed run has logged no trade. *)
Theorem setup_checks_periods_and_commission_only :
  (forall cfg bars,
      (SmaCross.pfast (strategy cfg) <= 0)%Z
      \/ (SmaCross.pslow (strategy cfg) <= 0)%Z
      \/ commission cfg < 0 ->
      Engine.run cfg bars = Err CONFIG_ERROR)
  /\ (forall pct cash0 rate bars,
      0 <= rate -> run_backtest pct cash0 rate bars <> Err CONFIG_ERROR)
  /\ (forall pct cash0 rate,
      0 <= rate -> exists rep, run_backtest pct cash0 rate [] = Ok rep)
  /\ (forall pct cash0 rate bars rep,
      pct <= 0 -> 0 <= cash0 ->
      run_backtest pct cash0 rate bars = Ok rep -> trades rep = []).
Proof.
  split; [|split; [|split]].
  - intros cfg bars H. unfold Engine.run, Engine.check_config.
    destruct H as [H | [H | H]].
    + apply Z.ltb_ge in H. now rewrite H.
    + apply Z.ltb_ge in H. now rewrite H, andb_false_r.
    + destruct (Qle_bool 0 (commission cfg)) eqn:E.
      * apply Qle_bool_iff in E. lra.
      * now rewrite andb_false_r.
  - intros pct cash0 rate bars Hr. unfold run_backtest, Engine.run.
    rewrite (driver_config_checked _ _ _ Hr).
    destruct (Engine.run_bars _ _ bars) as [st|e] eqn:Er; simpl; [discriminate|].
    intros [= ->]. now apply run_bars_not_config in Er.
  - intros pct cash0 rate Hr. unfold run_backtest, Engine.run.
    rewrite (driver_config_checked _ _ _ Hr). simpl. eauto.
  - intros pct cash0 rate bars rep Hp Hc. unfold run_backtest, Engine.run.
    destruct (Engine.check_config _); [|discriminate].
    intros H. apply bind_ok in H. destruct H as (st & Hr & H).
    injection H as <-. simpl.
    exact (run_bars_never_buys
             (addstrategy pct) bars
             (Engine.init (mkConfig (addstrategy pct) cash0 rate)) st
             Hp eq_refl Hc Hr).
Qed.

Lemma setup_checks_periods_and_commission_only_witness :
  Engine.run (mkConfig (SmaCross.mkParams 10 0 (3 # 10)) 100000 (1 # 1000))
             crossing_bars
  = Err CONFIG_ERROR.
Proof.
  apply (proj1 setup_checks_periods_and_commission_only
               (mkConfig (SmaCross.mkParams 10 0 (3 # 10)) 100000 (1 # 1000))
               crossing_bars).
  right. left. simpl. lia.
Defined.

(** C7, as the claim states it, fails: a fraction of 1.5 is not rejected at
    setup.  The first thirty bars are processed (thirty equity points), and
    the fraction surfaces on the thirty-first, at trade time, when the BUY
    it sizes exceeds the cash. *)
Lemma fraction_is_not_checked_at_setup :
  (exists rep,
      run_backtest (3 # 2) 1000 0 (firstn 30 crossing_bars) = Ok rep
      /\ length (curve rep) = 30%nat /\ trades rep = [])
  /\ run_backtest (3 # 2) 1000 0 crossing_bars = Err INSUFFICIENT_FUNDS.
Proof.
  split; [|vm_compute; reflexivity].
  destruct (run_backtest (3 # 2) 1000 0 (firstn 30 crossing_bars))
    as [rep|e] eqn:E; [|vm_compute in E; discriminate].
  exists rep. split; [reflexivity|].
  vm_compute in E. injection E as <-. split; reflexivity.
Qed.

(** ** The engine's signals are the detector's *)

Lemma advance_indicators st b r :
  Engine.sma_fast (Engine.advance st b r)
  = fst (SMA.observe (Engine.sma_fast st) (close b))
  /\ Engine.sma_slow (Engine.advance st b r)
     = fst (SMA.observe (Engine.sma_slow st) (close b))
  /\ Engine.crossover (Engine.advance st b r)
     = fst (CrossOver.observe (Engine.crossover st)
                              (snd (SMA.observe (Engine.sma_fast st) (close b)))
                              (snd (SMA.observe (Engine.sma_slow st) (close b)))).
Proof.
  repeat split.
Qed.

(** The signals the strategy sees in a run are, bar for bar, those of the
    detector fed by the two averages over the closes. *)
Lemma engine_signals p bars st :
  map Engine.ev_signal (Engine.events p st bars)
  = firstn (length (Engine.events p st bars))
           (CrossOver.run (Engine.crossover st)
              (combine (SMA.run (Engine.sma_fast st) (map close bars))
                       (SMA.run (Engine.sma_slow st) (map close bars)))).
Proof.
  revert st. induction bars as [|b rest IH]; intros st; [reflexivity|].
  simpl.
  destruct (Engine.observe_bar p st b) as [ev|e] eqn:Eo; [|reflexivity].
  simpl. f_equal.
  - apply observe_bar_ok in Eo. destruct Eo as (_ & _ & _ & _ & _ & ->).
    reflexivity.
  - destruct (Engine.process_bar p st b) as [st'|e] eqn:Ep; [|reflexivity].
    apply process_bar_ok in Ep. destruct Ep as (_ & order & r & _ & _ & ->).
    rewrite IH.
    destruct (advance_indicators st b r) as (-> & -> & ->). reflexivity.
Qed.

(** The documented scenario: exactly one BUY, on the first rising bar, of
    floor(1000 / 11) = 90 shares at 11, and no SELL. *)
Example rising_scenario :
  exists rep,
    Engine.run rising_config rising_bars = Ok rep
    /\ map (fun e => (log_timestamp e, log_side e, log_size e, Qred (log_price e)))
           (trades rep)
       = [(11%Z, BUY, 90%Z, 11)]
    /\ length (curve rep) = 40%nat.
Proof.
  destruct (Engine.run rising_config rising_bars) as [rep|e] eqn:E;
    [|vm_compute in E; discriminate].
  exists rep. split; [reflexivity|].
  vm_compute in E. injection E as <-. split; reflexivity.
Qed.

(** * Further properties of the source *)

(** ** [int] on rationals *)



(** ** The size grows with the allocation and shrinks with the price *)


